(** * ZerePy command shell: registry, dispatcher, session and REPL loop

    A shallow embedding of [src/zerepy/cli.py] and [src/zerepy/agent.py],
    together with the parts of Python's standard library the shell calls
    ([str.lower], [str.strip], [shlex.split], [difflib.get_close_matches]).

    Conventions of the embedding.
    - A Python [str] is a Rocq [string]; a character is its code point, and
      the code points covered are those below 256.  The two banner literals
      of the source that hold characters beyond that range are kept as the
      bytes of the source file; nothing below inspects them.
    - A Python [dict] is an association list in insertion order: assigning
      to a present key replaces the value in place, assigning to an absent
      key appends.  Iteration ([keys()], [values()]) follows that order.
    - Methods of [ZerePyCLI] are state transformers that either return or
      raise; the state holds the object's fields and the part of the world
      the shell reads or writes (terminal input, the agents directory, the
      output produced so far).
    - A bound method stored in a [Command] is its tag in [handler_id];
      [run_handler] maps the tag back to the method.
    - The agent is seen through the interface the shell uses ([AgentImpl]):
      a constructor and methods that return, raise an [Exception] or are
      interrupted; [shipped_agent] is the class of [agent.py].
    - The prompt session is a list of terminal events.  Of [prompt_toolkit]
      the shell is given what the markup parser [HTML] raises for a text
      ([PromptToolkit]); of the creation of the configuration directory and
      of the set-up of the prompt session, what they raise in this run (a
      field of the state each).  Line editing, history and the set-up of
      logging are outside the embedding. *)

From Stdlib Require Import String Ascii List Bool Arith ZArith QArith Lia Sorted.
Import ListNotations.

Open Scope string_scope.
Open Scope list_scope.
Open Scope nat_scope.

(* ------------------------------------------------------------------ *)
(** ** Python strings *)

(** [c.lower()] on one character: the upper-case letters below code 256 are
    [A]-[Z] and the Latin-1 capitals 192-222 without the multiplication
    sign 215; each maps to the character 32 places further. *)
Definition chr_lower (c : ascii) : ascii :=
  let n := nat_of_ascii c in
  if ((65 <=? n) && (n <=? 90)) || ((192 <=? n) && (n <=? 222) && negb (n =? 215))
  then ascii_of_nat (n + 32)
  else c.

(** [s.lower()] *)
Fixpoint lower (s : string) : string :=
  match s with
  | EmptyString => EmptyString
  | String c r => String (chr_lower c) (lower r)
  end.

(** [c.isspace()]: tab to carriage return, the four separators 28-31, the
    space, NEL (133) and the no-break space (160). *)
Definition isspace (c : ascii) : bool :=
  let n := nat_of_ascii c in
  ((9 <=? n) && (n <=? 13)) || ((28 <=? n) && (n <=? 32)) || (n =? 133) || (n =? 160).

(** [s.lstrip()] *)
Fixpoint lstrip (s : string) : string :=
  match s with
  | EmptyString => EmptyString
  | String c r => if isspace c then lstrip r else s
  end.

(** [s.rstrip()] *)
Fixpoint rstrip (s : string) : string :=
  match s with
  | EmptyString => EmptyString
  | String c r =>
      match rstrip r with
      | EmptyString => if isspace c then EmptyString else String c EmptyString
      | r' => String c r'
      end
  end.

(** [s.strip()] *)
Definition strip (s : string) : string := rstrip (lstrip s).

(** Truth value of a string: [bool(s)]. *)
Definition nonempty (s : string) : bool :=
  match s with EmptyString => false | _ => true end.

(** [sep.join(parts)] *)
Fixpoint join (sep : string) (parts : list string) : string :=
  match parts with
  | [] => ""
  | [p] => p
  | p :: rest => p ++ sep ++ join sep rest
  end.

(** [c * n] for a one-character string [c]. *)
Fixpoint repeat_chr (c : ascii) (n : nat) : string :=
  match n with
  | 0 => EmptyString
  | S k => String c (repeat_chr c k)
  end.

(** The format specification [{s:<w}]: [s] padded with spaces on the right
    up to width [w]. *)
Definition ljust (s : string) (w : nat) : string :=
  s ++ repeat_chr " "%char (w - String.length s).

(** Two strings are equal up to the case of their letters. *)
Definition eq_nocase (s t : string) : Prop := lower s = lower t.

(* ------------------------------------------------------------------ *)
(** ** Python dictionaries with string keys *)

Section Dict.
Context {V : Type}.

Definition dict := list (string * V).

(** [d.get(k)] *)
Fixpoint dict_get (k : string) (d : dict) : option V :=
  match d with
  | [] => None
  | (k', v) :: r => if String.eqb k k' then Some v else dict_get k r
  end.

(** [d[k] = v] *)
Fixpoint dict_set (k : string) (v : V) (d : dict) : dict :=
  match d with
  | [] => [(k, v)]
  | (k', v') :: r =>
      if String.eqb k k' then (k', v) :: r else (k', v') :: dict_set k v r
  end.

(** [d.keys()] and [d.values()], in insertion order. *)
Definition dict_keys (d : dict) : list string := map fst d.
Definition dict_values (d : dict) : list V := map snd d.

End Dict.

Arguments dict V : clear implicits.

(** [x in seen] for a set of strings, kept as a list. *)
Definition mem (x : string) (seen : list string) : bool :=
  existsb (String.eqb x) seen.

(* ------------------------------------------------------------------ *)
(** ** Commands *)

(** The bound methods [self.help], [self.clear_screen], ... that
    [_initialize_commands] stores in the commands. *)
Inductive handler_id :=
| H_help
| H_clear_screen
| H_agent_action
| H_agent_loop
| H_list_agents
| H_load_agent
| H_create_agent
| H_set_default_agent
| H_chat_session
| H_list_actions
| H_configure_connection
| H_list_connections
| H_exit.

(** The dataclass [Command], after [__post_init__]. *)
Record Command := mk_Command {
  name : string;
  description : string;
  tips : list string;
  handler : handler_id;
  aliases : list string
}.

(** [Command(name, description, tips, handler, aliases)]: an omitted alias
    list ([None]) becomes the empty list in [__post_init__]. *)
Definition new_Command (n d : string) (t : list string) (h : handler_id)
  (al : option (list string)) : Command :=
  mk_Command n d t h (match al with None => [] | Some l => l end).

(** The keys under which a command is registered: its name, then its aliases. *)
Definition command_keys (c : Command) : list string := name c :: aliases c.

(** The body of [_register_command] on the dictionary [self.commands]. *)
Definition register_into (command : Command) (commands : dict Command) : dict Command :=
  fold_left (fun d alias => dict_set alias command d) (aliases command)
            (dict_set (name command) command commands).

(** The thirteen commands of [_initialize_commands], in the order of the source. *)
Definition registered_commands : list Command :=
  [ new_Command "help" "Show help" ["help"; "help load-agent"] H_help (Some ["h"; "?"]);
    new_Command "clear" "Clear the screen" ["clear"] H_clear_screen (Some ["cls"]);
    new_Command "agent-action" "Run agent action" ["agent-action conn action"] H_agent_action (Some ["action"; "run"]);
    new_Command "agent-loop" "Run agent loop" ["start"] H_agent_loop (Some ["loop"; "start"]);
    new_Command "list-agents" "List agent files" [] H_list_agents (Some ["agents"; "ls-agents"]);
    new_Command "load-agent" "Load an agent" ["load-agent agent_name"] H_load_agent (Some ["load"]);
    new_Command "create-agent" "Create new agent" [] H_create_agent (Some ["new-agent"; "create"]);
    new_Command "set-default-agent" "Set default agent" ["default agent_name"] H_set_default_agent (Some ["default"]);
    new_Command "chat" "Chat with agent" [] H_chat_session (Some ["talk"]);
    new_Command "list-actions" "List actions for connection" ["list-actions conn"] H_list_actions (Some ["actions"; "ls-actions"]);
    new_Command "configure-connection" "Configure a connection" ["configure-connection conn"] H_configure_connection (Some ["config"; "setup"]);
    new_Command "list-connections" "List all connections" [] H_list_connections (Some ["connections"; "ls-connections"]);
    new_Command "exit" "Exit CLI" ["exit"] H_exit (Some ["quit"; "q"]) ].

(* ------------------------------------------------------------------ *)
(** ** Exceptions *)

(** An instance of a subclass of [Exception]: its class and [str(e)]. *)
Record error := mk_error { cls : string; msg : string }.

(** What a [raise] can carry: an [Exception], or one of the two
    [BaseException]s that [except Exception] lets through. *)
Inductive exn :=
| Exception (e : error)
| KeyboardInterrupt
| SystemExit (code : Z).

Definition ValueError (m : string) : error := mk_error "ValueError" m.
Definition EOFError : error := mk_error "EOFError" "".
Definition AttributeError (m : string) : error := mk_error "AttributeError" m.
Definition ExpatError (m : string) : error := mk_error "ExpatError" m.

(** [isinstance(e, EOFError)] *)
Definition is_EOFError (e : error) : bool := String.eqb (cls e) "EOFError".

(* ------------------------------------------------------------------ *)
(** ** [shlex.split(s)]

    The lexer of Python's [shlex] as [split] configures it: POSIX mode,
    [whitespace_split] on, no comment characters, no punctuation characters.
    [shlex_read] follows [shlex.read_token] character by character; a token
    that is complete is put in front of the tokens of the rest of the input. *)

Inductive lex_state :=
| S_space                          (* state ' ': between tokens *)
| S_word                           (* state 'a': inside a token *)
| S_quote (q : ascii)              (* state is the quote that was opened *)
| S_escape (escapedstate : option ascii).
                                   (* state is the backslash; escapedstate is
                                      'a' (None) or the enclosing quote *)

(** [nextchar in self.whitespace] *)
Definition shlex_whitespace (c : ascii) : bool :=
  let n := nat_of_ascii c in (n =? 32) || (n =? 9) || (n =? 13) || (n =? 10).

(** [nextchar in self.quotes] *)
Definition shlex_quote (c : ascii) : bool :=
  let n := nat_of_ascii c in (n =? 39) || (n =? 34).

(** [nextchar in self.escape] *)
Definition shlex_escape (c : ascii) : bool := nat_of_ascii c =? 92.

(** [... in self.escapedquotes] *)
Definition shlex_escapedquote (c : ascii) : bool := nat_of_ascii c =? 34.

Definition backslash : ascii := ascii_of_nat 92.

(** [token += c] *)
Definition snoc (token : string) (c : ascii) : string := token ++ String c EmptyString.

(** A finished token in front of what the rest of the input yields. *)
Definition emit_token (token : string) (r : error + list string) : error + list string :=
  match r with
  | inl e => inl e
  | inr l => inr (token :: l)
  end.

Fixpoint shlex_read (input : string) (state : lex_state) (token : string) (quoted : bool)
  : error + list string :=
  match input with
  | EmptyString =>
      match state with
      | S_space | S_word =>
          if nonempty token || quoted then inr [token] else inr []
      | S_quote _ => inl (ValueError "No closing quotation")
      | S_escape _ => inl (ValueError "No escaped character")
      end
  | String c rest =>
      match state with
      | S_space =>
          if shlex_whitespace c then
            if nonempty token || quoted
            then emit_token token (shlex_read rest S_space "" false)
            else shlex_read rest S_space token quoted
          else if shlex_escape c then shlex_read rest (S_escape None) token quoted
          else if shlex_quote c then shlex_read rest (S_quote c) token quoted
          else shlex_read rest S_word (String c EmptyString) quoted
      | S_quote q =>
          if Ascii.eqb c q then shlex_read rest S_word token true
          else if shlex_escape c && shlex_escapedquote q
          then shlex_read rest (S_escape (Some q)) token true
          else shlex_read rest (S_quote q) (snoc token c) true
      | S_escape escapedstate =>
          match escapedstate with
          | Some q =>
              let token' :=
                if negb (Ascii.eqb c backslash) && negb (Ascii.eqb c q)
                then snoc token backslash else token in
              shlex_read rest (S_quote q) (snoc token' c) quoted
          | None => shlex_read rest S_word (snoc token c) quoted
          end
      | S_word =>
          if shlex_whitespace c then
            if nonempty token || quoted
            then emit_token token (shlex_read rest S_space "" false)
            else shlex_read rest S_space token quoted
          else if shlex_quote c then shlex_read rest (S_quote c) token quoted
          else if shlex_escape c then shlex_read rest (S_escape None) token quoted
          else shlex_read rest S_word (snoc token c) quoted
      end
  end.

Definition shlex_split (s : string) : error + list string :=
  shlex_read s S_space "" false.

(* ------------------------------------------------------------------ *)
(** ** [difflib.SequenceMatcher] and [difflib.get_close_matches]

    [get_close_matches] builds one matcher with [isjunk = None] and
    [autojunk = True], sets its second sequence [b] to the word and its first
    sequence [a] to each candidate in turn.  Sequences are strings, read
    here as lists of characters; positions are natural numbers.

    The three ratios are the floating-point quotients [2.0 * matches / length].
    They are kept as the exact rationals: a quotient of two integers is
    rounded to the nearest double, so equal rationals give equal doubles and
    the order of two different rationals with denominators of this size is
    kept by the rounding; the same holds for the comparison with the
    cutoff. *)

Definition chars (s : string) : list ascii := list_ascii_of_string s.

(** Positions of [elt] in [b] from position [from] on, ascending: the list
    that [__chain_b] stores under [elt] in [b2j]. *)
Fixpoint indices_from (from : nat) (elt : ascii) (b : list ascii) : list nat :=
  match b with
  | [] => []
  | c :: r =>
      if Ascii.eqb c elt then from :: indices_from (S from) elt r
      else indices_from (S from) elt r
  end.

(** [elt in self.bpopular]: with [autojunk], in a sequence of at least 200
    elements, an element that occurs more than [n // 100 + 1] times. *)
Definition bpopular (b : list ascii) (elt : ascii) : bool :=
  let n := length b in
  (200 <=? n) && (n / 100 + 1 <? length (indices_from 0 elt b)).

(** [self.b2j.get(elt, [])] after [__chain_b]: no element is junk, the
    popular ones were deleted. *)
Definition b2j (b : list ascii) (elt : ascii) : list nat :=
  if bpopular b elt then [] else indices_from 0 elt b.

(** [j2len.get(j, 0)] for a dictionary from positions to lengths. *)
Fixpoint j2len_get (j : nat) (j2len : list (nat * nat)) : nat :=
  match j2len with
  | [] => 0
  | (j', k) :: r => if j =? j' then k else j2len_get j r
  end.

(** A match [(besti, bestj, bestsize)]. *)
Definition Match : Type := nat * nat * nat.

(** The inner loop of [find_longest_match] for row [i]: over the positions
    [js] of [a[i]] in [b].  [j2len.get(j-1, 0)] is 0 at [j = 0], where the
    key [-1] is never present; [i-k+1] is written [i+1-k]. *)
Fixpoint scan_row (js : list nat) (blo bhi i : nat) (j2len newj2len : list (nat * nat))
  (best : Match) : list (nat * nat) * Match :=
  match js with
  | [] => (newj2len, best)
  | j :: rest =>
      if j <? blo then scan_row rest blo bhi i j2len newj2len best
      else if bhi <=? j then (newj2len, best)
      else
        let k := (match j with 0 => 0 | S j' => j2len_get j' j2len end) + 1 in
        let '(besti, bestj, bestsize) := best in
        scan_row rest blo bhi i j2len ((j, k) :: newj2len)
          (if bestsize <? k then (i + 1 - k, j + 1 - k, k) else best)
  end.

(** The outer loop, [for i in range(alo, ahi)], as [n = ahi - i] rows still
    to do. *)
Fixpoint scan_rows (n i : nat) (a b : list ascii) (blo bhi : nat)
  (j2len : list (nat * nat)) (best : Match) : Match :=
  match n with
  | 0 => best
  | S n' =>
      let js := match nth_error a i with Some elt => b2j b elt | None => [] end in
      let '(newj2len, best') := scan_row js blo bhi i j2len [] best in
      scan_rows n' (S i) a b blo bhi newj2len best'
  end.

(** [a[i] == b[j]] for positions inside the sequences. *)
Definition same_at (a b : list ascii) (i j : nat) : bool :=
  match nth_error a i, nth_error b j with
  | Some x, Some y => Ascii.eqb x y
  | _, _ => false
  end.

(** The first [while] after the scan: extend the match to the left by equal
    elements (no element is junk).  [n] bounds the number of turns by
    [besti - alo]. *)
Fixpoint extend_left (n : nat) (a b : list ascii) (alo blo : nat) (best : Match) : Match :=
  match n with
  | 0 => best
  | S n' =>
      let '(besti, bestj, bestsize) := best in
      if (alo <? besti) && (blo <? bestj) && same_at a b (besti - 1) (bestj - 1)
      then extend_left n' a b alo blo (besti - 1, bestj - 1, bestsize + 1)
      else best
  end.

(** The second [while]: extend to the right; [n] bounds the turns by
    [ahi - (besti + bestsize)]. *)
Fixpoint extend_right (n : nat) (a b : list ascii) (ahi bhi : nat) (best : Match) : Match :=
  match n with
  | 0 => best
  | S n' =>
      let '(besti, bestj, bestsize) := best in
      if (besti + bestsize <? ahi) && (bestj + bestsize <? bhi)
         && same_at a b (besti + bestsize) (bestj + bestsize)
      then extend_right n' a b ahi bhi (besti, bestj, bestsize + 1)
      else best
  end.

(** [find_longest_match(alo, ahi, blo, bhi)].  The last two [while] loops of
    the source extend by junk elements only; the junk set is empty. *)
Definition find_longest_match (a b : list ascii) (alo ahi blo bhi : nat) : Match :=
  let best := scan_rows (ahi - alo) alo a b blo bhi [] (alo, blo, 0) in
  let best := extend_left (fst (fst best) - alo) a b alo blo best in
  extend_right (ahi - (fst (fst best) + snd best)) a b ahi bhi best.

(** The sum of the sizes of the blocks that [get_matching_blocks] collects
    for the window [(alo, ahi, blo, bhi)]: the longest match there, then the
    windows to its left and to its right.  The source works the windows off
    a queue, sorts the blocks and joins adjacent ones; the sum, which is all
    that [ratio] reads, is the same.  [None] when [fuel] is used up. *)
Fixpoint matching_size (fuel : nat) (a b : list ascii) (alo ahi blo bhi : nat) : option nat :=
  match fuel with
  | 0 => None
  | S fuel' =>
      let '(i, j, k) := find_longest_match a b alo ahi blo bhi in
      if k =? 0 then Some 0
      else
        match
          (if (alo <? i) && (blo <? j)
           then matching_size fuel' a b alo i blo j else Some 0),
          (if (i + k <? ahi) && (j + k <? bhi)
           then matching_size fuel' a b (i + k) ahi (j + k) bhi else Some 0)
        with
        | Some l, Some r => Some (k + l + r)
        | _, _ => None
        end
  end.

(** [_calculate_ratio(matches, length)] *)
Definition _calculate_ratio (matches length : nat) : Q :=
  match length with
  | 0 => 1%Q
  | _ => (Z.of_nat (2 * matches) # Pos.of_nat length)%Q
  end.

(** [sum(triple[-1] for triple in self.get_matching_blocks())]; a window
    shrinks by at least one row at every level, so [len(a) + 1] levels are
    enough (see [matching_size_total]). *)
Definition matches (a b : list ascii) : nat :=
  match matching_size (S (length a)) a b 0 (length a) 0 (length b) with
  | Some m => m
  | None => 0
  end.

(** [SequenceMatcher(None, a, b).ratio()] *)
Definition ratio (a b : string) : Q :=
  _calculate_ratio (matches (chars a) (chars b)) (String.length a + String.length b).

(** [avail.get(elt)] for the dictionary of [quick_ratio]. *)
Fixpoint avail_get (elt : ascii) (avail : list (ascii * Z)) : option Z :=
  match avail with
  | [] => None
  | (c, n) :: r => if Ascii.eqb elt c then Some n else avail_get elt r
  end.

(** The loop of [quick_ratio] over the elements of [a]: how many of them are
    still available in [b], counted with multiplicity. *)
Fixpoint quick_matches (a b : list ascii) (avail : list (ascii * Z)) (acc : nat) : nat :=
  match a with
  | [] => acc
  | elt :: r =>
      let numb :=
        match avail_get elt avail with
        | Some n => n
        | None => Z.of_nat (length (indices_from 0 elt b))
        end in
      quick_matches r b ((elt, (numb - 1)%Z) :: avail)
        (if (0 <? numb)%Z then acc + 1 else acc)
  end.

(** [quick_ratio()] *)
Definition quick_ratio (a b : string) : Q :=
  _calculate_ratio (quick_matches (chars a) (chars b) [] 0)
                   (String.length a + String.length b).

(** [real_quick_ratio()] *)
Definition real_quick_ratio (a b : string) : Q :=
  _calculate_ratio (Nat.min (String.length a) (String.length b))
                   (String.length a + String.length b).

(** Order of the pairs [(score, x)] that [get_close_matches] ranks:
    Python's order on tuples, scores first, then the strings by code point. *)
Definition pair_leb (p q : Q * string) : bool :=
  match (fst p ?= fst q)%Q with
  | Lt => true
  | Gt => false
  | Eq => match String.compare (snd p) (snd q) with Gt => false | _ => true end
  end.

(** Insertion into a list kept in descending order. *)
Fixpoint insert_desc (p : Q * string) (l : list (Q * string)) : list (Q * string) :=
  match l with
  | [] => [p]
  | q :: r => if pair_leb q p then p :: l else q :: insert_desc p r
  end.

(** [sorted(result, reverse=True)] *)
Definition sort_desc (l : list (Q * string)) : list (Q * string) :=
  fold_right insert_desc [] l.

(** [heapq.nlargest(n, result)], by its documented meaning
    [sorted(result, reverse=True)[:n]]. *)
Definition nlargest (n : nat) (l : list (Q * string)) : list (Q * string) :=
  firstn n (sort_desc l).

(** The test of the loop of [get_close_matches] for candidate [x]. *)
Definition close_enough (word : string) (cutoff : Q) (x : string) : bool :=
  Qle_bool cutoff (real_quick_ratio x word)
  && Qle_bool cutoff (quick_ratio x word)
  && Qle_bool cutoff (ratio x word).

(** [difflib.get_close_matches(word, possibilities, n, cutoff)] *)
Definition get_close_matches (word : string) (possibilities : list string)
  (n : nat) (cutoff : Q) : error + list string :=
  if n =? 0 then inl (ValueError "n must be > 0")
  else if negb (Qle_bool 0 cutoff && Qle_bool cutoff 1)
  then inl (ValueError "cutoff must be in [0.0, 1.0]")
  else
    let result :=
      map (fun x => (ratio x word, x)) (filter (close_enough word cutoff) possibilities) in
    inr (map snd (nlargest n result)).

(* ------------------------------------------------------------------ *)
(** ** What the shell emits *)

Inductive level := INFO | WARNING | ERROR.

(** The methods of the agent and of its connection manager that the shell
    calls. *)
Inductive method :=
| M_init
| M_perform_action
| M_loop
| M_setup_llm_provider
| M_prompt_llm
| M_list_actions
| M_configure_connection
| M_list_connections.

(** One observable step of a run. *)
Inductive output :=
| Log (lv : level) (text : string)      (* logger.info, logger.warning, logger.error *)
| Print (text : string)                 (* print *)
| Prompt (text : string)                (* the prompt shown by session.prompt *)
| OsSystem (cmd : string)               (* os.system *)
| Call (m : method) (args : list string).
                                        (* a method of the agent is entered *)

(* ------------------------------------------------------------------ *)
(** ** The agent ([agent.py]) behind the interface the shell uses *)

Module ZerePyAgent.

(** The fields of a [ZerePyAgent]; the connection manager has no state. *)
Record t := make {
  name : string;
  is_llm_set : bool
}.

End ZerePyAgent.

(** How a call of a method ends: it returns, it raises an [Exception], or it
    is interrupted from the keyboard. *)
Inductive call_result (A : Type) :=
| Done (a : A)
| Failed (e : error)
| Interrupted.

Arguments Done {A} a.
Arguments Failed {A} e.
Arguments Interrupted {A}.

(** What a method does: what it writes, the fields it leaves in [self], and
    how it ends. *)
Record method_result (A : Type) := mk_result {
  m_out : list output;
  m_self : ZerePyAgent.t;
  m_ret : call_result A
}.

Arguments mk_result {A} m_out m_self m_ret.
Arguments m_out {A} _.
Arguments m_self {A} _.
Arguments m_ret {A} _.

(** The agent as the shell sees it: a constructor that may raise, and the
    methods of an agent and of [agent.connection_manager]. *)
Class AgentImpl := {
  new_agent : string -> list output * (error + ZerePyAgent.t);
  perform_action : ZerePyAgent.t -> string -> string -> list string -> method_result string;
  loop : ZerePyAgent.t -> method_result unit;
  _setup_llm_provider : ZerePyAgent.t -> method_result unit;
  prompt_llm : ZerePyAgent.t -> string -> method_result string;
  list_actions : ZerePyAgent.t -> string -> method_result unit;
  configure_connection : ZerePyAgent.t -> string -> method_result unit;
  list_connections : ZerePyAgent.t -> method_result unit
}.

(** The three methods of the connection manager, under names that the
    methods of the shell of the same names do not hide. *)
Abbreviation cm_list_actions := list_actions (only parsing).
Abbreviation cm_configure_connection := configure_connection (only parsing).
Abbreviation cm_list_connections := list_connections (only parsing).

Definition apostrophe : string := String (ascii_of_nat 39) EmptyString.
Definition double_quote : string := String (ascii_of_nat 34) EmptyString.
Definition newline : string := String (ascii_of_nat 10) EmptyString.

(** [x in s] for a character [x]. *)
Fixpoint has_chr (x : ascii) (s : string) : bool :=
  match s with
  | EmptyString => false
  | String c r => Ascii.eqb c x || has_chr x r
  end.

Definition hex_digit (n : nat) : ascii :=
  ascii_of_nat (if n <? 10 then 48 + n else 87 + n).

(** One character inside [repr(s)], written between quotes [q]. *)
Definition repr_chr (q : ascii) (c : ascii) : string :=
  let n := nat_of_ascii c in
  if (n =? 92) || Ascii.eqb c q then String backslash (String c EmptyString)
  else if n =? 9 then String backslash "t"
  else if n =? 10 then String backslash "n"
  else if n =? 13 then String backslash "r"
  else if (n <? 32) || ((127 <=? n) && (n <=? 160)) || (n =? 173)
  then String backslash (String "x"%char
         (String (hex_digit (n / 16)) (String (hex_digit (n mod 16)) EmptyString)))
  else String c EmptyString.

Fixpoint repr_body (q : ascii) (s : string) : string :=
  match s with
  | EmptyString => EmptyString
  | String c r => repr_chr q c ++ repr_body q r
  end.

(** [repr(s)] for a string: double quotes when [s] holds an apostrophe and
    no double quote, apostrophes otherwise. *)
Definition repr_str (s : string) : string :=
  let q := if has_chr (ascii_of_nat 39) s && negb (has_chr (ascii_of_nat 34) s)
           then ascii_of_nat 34 else ascii_of_nat 39 in
  String q (repr_body q s) ++ String q EmptyString.

(** [repr(l)] for a list of strings, as an f-string formats it. *)
Definition repr_list (l : list string) : string :=
  "[" ++ join ", " (map repr_str l) ++ "]".

(** A method of [agent.py]: it prints, leaves [self] as it is, and returns. *)
Definition returns {A : Type} (self : ZerePyAgent.t) (printed : list output) (a : A)
  : method_result A :=
  mk_result printed self (Done a).

(** The class [ZerePyAgent] of [agent.py], with its [DummyConnectionManager]. *)
Definition shipped_agent : AgentImpl := {|
  new_agent agent_name :=
    ([], inr (ZerePyAgent.make agent_name true));
  perform_action self connection action params :=
    returns self []
      ("Performed action '" ++ action ++ "' on connection '" ++ connection
       ++ "' with params " ++ repr_list params)%string;
  loop self :=
    returns self [Print "Running agent loop... (Ctrl+C to stop)"] tt;
  _setup_llm_provider self :=
    returns self [Print "Setting up LLM provider..."] tt;
  prompt_llm self prompt :=
    returns self [] ("LLM response to: " ++ prompt)%string;
  list_actions self connection_name :=
    returns self [Print ("Available actions for connection '" ++ connection_name ++ "'")] tt;
  configure_connection self connection_name :=
    returns self [Print ("Configuring connection '" ++ connection_name ++ "'")] tt;
  list_connections self :=
    returns self [Print "Available connections: example_connection"] tt
|}.

(** An agent class whose constructor raises for every name, as one that finds
    no definition file for it would; the other methods are the shipped
    ones.  The constructor of [agent.py] itself never raises. *)
Definition unloadable_agent : AgentImpl := {|
  new_agent agent_name :=
    ([], inl (mk_error "FileNotFoundError" ("No such agent: " ++ agent_name)));
  perform_action := @perform_action shipped_agent;
  loop := @loop shipped_agent;
  _setup_llm_provider := @_setup_llm_provider shipped_agent;
  prompt_llm := @prompt_llm shipped_agent;
  list_actions := @list_actions shipped_agent;
  configure_connection := @configure_connection shipped_agent;
  list_connections := @list_connections shipped_agent
|}.

(* ------------------------------------------------------------------ *)
(** ** The markup parser of [prompt_toolkit]

    [HTML(text)] parses [text] as XML ([minidom.parseString] on the text
    inside a root element) and walks the tree.  It returns, or it raises
    what the parser or the walk raise: [ExpatError] for a text that is not
    well-formed (an [&] that starts no reference, a [<] that starts no tag,
    a control character), [ValueError] for a colour that holds a space;
    never [EOFError].  The parser is a library outside this repository: the
    shell is defined over what the constructor raises for a text, [None]
    when it returns. *)
Class PromptToolkit := {
  HTML : string -> option error;
  HTML_raises : forall text e, HTML text = Some e -> is_EOFError e = false
}.

(* ------------------------------------------------------------------ *)
(** ** State of a run *)

(** What the terminal delivers to one call of [session.prompt]: a line, an
    interrupt (Ctrl-C) or end of input (Ctrl-D).  When nothing is left the
    input is closed and every further prompt meets end of input. *)
Inductive key_event :=
| Line (text : string)
| CtrlC
| CtrlD.

(** The file [agents/general.json] as the shell uses it: reading it (opening,
    parsing, looking into the document) raises, or it is a document with
    its ["default_agent"] entry. *)
Inductive json_file :=
| Unreadable (e : error)
| Document (default_agent : option string).

Record state := mk_state {
  agent : option ZerePyAgent.t;        (* self.agent *)
  commands : dict Command;             (* self.commands *)
  tty : list key_event;                (* what self.session.prompt will meet *)
  general_json : json_file;            (* agents/general.json *)
  write_error : option error;          (* what opening it for writing raises *)
  agent_files : list string;           (* stems of agents/*.json *)
  os_name : string;                    (* os.name *)
  config_dir_error : option error;     (* what creating ~/.zerepy raises *)
  session_error : option error;        (* what building the prompt session raises *)
  out : list output                    (* what the run has emitted, oldest first *)
}.

Definition set_agent (a : option ZerePyAgent.t) (st : state) : state :=
  mk_state a (commands st) (tty st) (general_json st) (write_error st)
           (agent_files st) (os_name st) (config_dir_error st) (session_error st)
           (out st).

Definition set_commands (c : dict Command) (st : state) : state :=
  mk_state (agent st) c (tty st) (general_json st) (write_error st)
           (agent_files st) (os_name st) (config_dir_error st) (session_error st)
           (out st).

Definition set_tty (k : list key_event) (st : state) : state :=
  mk_state (agent st) (commands st) k (general_json st) (write_error st)
           (agent_files st) (os_name st) (config_dir_error st) (session_error st)
           (out st).

Definition set_general_json (f : json_file) (st : state) : state :=
  mk_state (agent st) (commands st) (tty st) f (write_error st)
           (agent_files st) (os_name st) (config_dir_error st) (session_error st)
           (out st).

Definition add_out (o : list output) (st : state) : state :=
  mk_state (agent st) (commands st) (tty st) (general_json st) (write_error st)
           (agent_files st) (os_name st) (config_dir_error st) (session_error st)
           (out st ++ o).

(* ------------------------------------------------------------------ *)
(** ** Statements: state transformers that return or raise *)

Inductive outcome (A : Type) :=
| Returned (a : A)
| Raised (x : exn).

Arguments Returned {A} a.
Arguments Raised {A} x.

Definition M (A : Type) : Type := state -> outcome A * state.

Definition ret {A : Type} (a : A) : M A := fun st => (Returned a, st).

Definition raise {A : Type} (x : exn) : M A := fun st => (Raised x, st).

Definition bind {A B : Type} (m : M A) (k : A -> M B) : M B :=
  fun st =>
    match m st with
    | (Returned a, st') => k a st'
    | (Raised x, st') => (Raised x, st')
    end.

Notation "x <- m ;; k" := (bind m (fun x => k))
  (at level 61, m at next level, right associativity).
Notation "m ;; k" := (bind m (fun _ => k))
  (at level 61, right associativity).

(** [try: body  except ...: ...]: [handlers x] is the clause that catches
    [x], if one does. *)
Definition try_except {A : Type} (body : M A) (handlers : exn -> option (M A)) : M A :=
  fun st =>
    match body st with
    | (Returned a, st') => (Returned a, st')
    | (Raised x, st') =>
        match handlers x with
        | Some clause => clause st'
        | None => (Raised x, st')
        end
    end.

(** [except Exception as e: clause(e)] *)
Definition except_Exception {A : Type} (clause : error -> M A) (x : exn) : option (M A) :=
  match x with
  | Exception e => Some (clause e)
  | _ => None
  end.

(** [except KeyboardInterrupt: clause] *)
Definition except_KeyboardInterrupt {A : Type} (clause : M A) (x : exn) : option (M A) :=
  match x with
  | KeyboardInterrupt => Some clause
  | _ => None
  end.

(** A library call that returns or raises an [Exception]. *)
Definition lift {A : Type} (r : error + A) : M A :=
  match r with
  | inl e => raise (Exception e)
  | inr a => ret a
  end.

Definition emit (o : list output) : M unit := fun st => (Returned tt, add_out o st).

Definition log (lv : level) (text : string) : M unit := emit [Log lv text].

Definition get {A : Type} (field : state -> A) : M A := fun st => (Returned (field st), st).

Definition put (update : state -> state) : M unit := fun st => (Returned tt, update st).

(** [for x in l: body(x)] *)
Fixpoint for_each {A : Type} (l : list A) (body : A -> M unit) : M unit :=
  match l with
  | [] => ret tt
  | x :: r => body x ;; for_each r body
  end.

(** [print_h_bar()] *)
Definition print_h_bar : M unit := emit [Print (repeat_chr "-"%char 60)].

(** The two literals of [cli.py] that hold characters beyond code 255, as
    the bytes of the source file. *)
Definition welcome_text : string := "ðŸ‘‹ Welcome to the ZerePy CLI!".
Definition loaded_text : string := "âœ… Loaded agent: ".

(* ------------------------------------------------------------------ *)
(** ** The class [ZerePyCLI] *)

Module ZerePyCLI.

Section CLI.
Context {impl : AgentImpl} {toolkit : PromptToolkit}.
Open Scope string_scope.

(** [self.agent.<attr>] on no agent. *)
Definition no_attribute (attr : string) : exn :=
  Exception (AttributeError ("'NoneType' object has no attribute '" ++ attr ++ "'")).

(** [self.agent.m(args)] or [self.agent.connection_manager.m(args)]: the
    method runs on the agent the shell holds, and what it leaves in [self]
    is what the shell holds afterwards. *)
Definition call {A : Type} (m : method) (attr : string) (args : list string)
  (f : ZerePyAgent.t -> method_result A) : M A :=
  fun st =>
    match agent st with
    | None => (Raised (no_attribute attr), st)
    | Some self =>
        let r := f self in
        let st' := add_out (Call m args :: m_out r) (set_agent (Some (m_self r)) st) in
        match m_ret r with
        | Done a => (Returned a, st')
        | Failed e => (Raised (Exception e), st')
        | Interrupted => (Raised KeyboardInterrupt, st')
        end
    end.

(** [ZerePyAgent(agent_name)] *)
Definition construct (agent_name : string) : M ZerePyAgent.t :=
  emit (Call M_init [agent_name] :: fst (new_agent agent_name)) ;;
  lift (snd (new_agent agent_name)).

(** [self.agent.name] *)
Definition agent_name : M string :=
  a <- get agent ;;
  match a with
  | Some self => ret (ZerePyAgent.name self)
  | None => raise (no_attribute "name")
  end.

(** [self.session.prompt(text)]: the terminal shows [text] and delivers its
    next event. *)
Definition deliver (ev : option key_event) (rest : list key_event) (text : string) : M string :=
  put (set_tty rest) ;;
  emit [Prompt text] ;;
  match ev with
  | Some (Line s) => ret s
  | Some CtrlC => raise KeyboardInterrupt
  | Some CtrlD | None => raise (Exception EOFError)
  end.

Definition prompt (text : string) : M string :=
  keys <- get tty ;;
  match keys with
  | [] => deliver None [] text
  | ev :: rest => deliver (Some ev) rest text
  end.

Definition _register_command (command : Command) : M unit :=
  put (fun st => set_commands (register_into command (commands st)) st).

Definition _initialize_commands : M unit :=
  put (set_commands []) ;;
  for_each registered_commands _register_command.

(** [self.config_dir.mkdir(exist_ok=True)] on [Path.home() / '.zerepy']:
    nothing the shell looks at later, unless it raises. *)
Definition mkdir_config_dir : M unit :=
  failure <- get config_dir_error ;;
  match failure with
  | Some e => raise (Exception e)
  | None => ret tt
  end.

(** [_setup_prompt_toolkit]: the style, the completer over the keys
    registered so far and the session are objects of the library, met again
    only at the prompts; building them returns or raises. *)
Definition _setup_prompt_toolkit : M unit :=
  failure <- get session_error ;;
  match failure with
  | Some e => raise (Exception e)
  | None => ret tt
  end.

Definition __init__ : M unit :=
  put (set_agent None) ;;
  mkdir_config_dir ;;
  _initialize_commands ;;
  _setup_prompt_toolkit.

Definition _get_prompt_message : M string :=
  a <- get agent ;;
  let agent_status :=
    match a with
    | Some self => "(" ++ ZerePyAgent.name self ++ ")"
    | None => "(no agent)"
    end in
  let text := "<prompt>ZerePy-CLI</prompt> " ++ agent_status ++ " > " in
  match HTML text with
  | Some e => raise (Exception e)
  | None => ret text
  end.

Definition _get_command_suggestions (command : string) (max_suggestions : nat)
  : M (list string) :=
  cmds <- get commands ;;
  lift (get_close_matches command (dict_keys cmds) max_suggestions (6 # 10)).

Definition _handle_unknown_command (command : string) : M unit :=
  log WARNING ("Unknown command: '" ++ command ++ "'") ;;
  suggestions <- _get_command_suggestions command 3 ;;
  match suggestions with
  | [] => ret tt
  | _ =>
      log INFO "Did you mean?" ;;
      for_each suggestions (fun s => log INFO ("  - " ++ s))
  end ;;
  log INFO "Use 'help' to see all commands.".

Definition _print_welcome_message : M unit :=
  print_h_bar ;;
  log INFO welcome_text ;;
  log INFO "Type 'help' to list commands." ;;
  print_h_bar.

Definition _load_agent_from_file (agent_name_arg : string) : M unit :=
  try_except
    (a <- construct agent_name_arg ;;
     put (set_agent (Some a)) ;;
     n <- agent_name ;;
     log INFO (loaded_text ++ n))
    (except_Exception (fun e => log ERROR ("Could not load agent: " ++ msg e))).

(** [open(...)] and [json.load(f)] on [agents/general.json], and the look
    into the document. *)
Definition read_general_json : M (option string) :=
  f <- get general_json ;;
  match f with
  | Unreadable e => raise (Exception e)
  | Document default_agent => ret default_agent
  end.

Definition _load_default_agent : M unit :=
  try_except
    (default_agent <- read_general_json ;;
     match default_agent with
     | Some n => if nonempty n then _load_agent_from_file n
                 else log WARNING "No default agent set."
     | None => log WARNING "No default agent set."
     end)
    (except_Exception (fun e => log WARNING ("Failed to load default agent: " ++ msg e))).

(** The commands that the listing of [help] prints: the values of
    [self.commands] in order, each name once. *)
Fixpoint listed (values : list Command) (seen : list string) : list Command :=
  match values with
  | [] => []
  | cmd :: r =>
      if mem (name cmd) seen then listed r seen
      else cmd :: listed r (name cmd :: seen)
  end.

Definition help_line (cmd : Command) : output :=
  Log INFO ("  " ++ ljust (name cmd) 20 ++ " - " ++ description cmd).

Definition help (input_list : list string) : M unit :=
  cmds <- get commands ;;
  if (1 <? length input_list)%nat then
    match dict_get (nth 1 input_list "") cmds with
    | Some cmd =>
        log INFO (name cmd ++ ": " ++ description cmd) ;;
        for_each (tips cmd) (fun tip => log INFO ("  - " ++ tip))
    | None => log WARNING "Command not found."
    end
  else
    log INFO "Commands:" ;;
    emit (map help_line (listed (dict_values cmds) [])).

Definition clear_screen (input_list : list string) : M unit :=
  os <- get os_name ;;
  emit [OsSystem (if String.eqb os "nt" then "cls" else "clear")] ;;
  _print_welcome_message.

Definition agent_action (input_list : list string) : M unit :=
  a <- get agent ;;
  match a with
  | None => log INFO "No agent loaded."
  | Some _ =>
      if (length input_list <? 3)%nat then log INFO "Usage: agent-action <connection> <action>"
      else
        result <- call M_perform_action "perform_action" (skipn 1 input_list)
                    (fun self => perform_action self (nth 1 input_list "") (nth 2 input_list "")
                                   (skipn 3 input_list)) ;;
        log INFO ("Result: " ++ result)
  end.

Definition agent_loop (input_list : list string) : M unit :=
  a <- get agent ;;
  match a with
  | None => log INFO "No agent loaded."
  | Some _ =>
      try_except (call M_loop "loop" [] loop)
                 (except_KeyboardInterrupt (log INFO "Stopped."))
  end.

Definition list_agents (input_list : list string) : M unit :=
  agents <- get agent_files ;;
  for_each agents (fun stem =>
    if String.eqb stem "general" then ret tt else log INFO ("- " ++ stem)).

Definition load_agent (input_list : list string) : M unit :=
  if (length input_list <? 2)%nat then log INFO "Usage: load-agent <agent_name>"
  else _load_agent_from_file (nth 1 input_list "").

Definition create_agent (input_list : list string) : M unit :=
  log INFO "Manual creation: add a .json file in agents/ folder.".

Definition set_default_agent (input_list : list string) : M unit :=
  if (length input_list <? 2)%nat then log INFO "Usage: set-default-agent <agent_name>"
  else
    try_except
      (_ <- read_general_json ;;
       w <- get write_error ;;
       match w with
       | Some e => raise (Exception e)
       | None =>
           put (set_general_json (Document (Some (nth 1 input_list "")))) ;;
           log INFO ("Default agent set to " ++ nth 1 input_list "")
       end)
      (except_Exception (fun e => log ERROR ("Error updating default agent: " ++ msg e))).

Definition list_actions (input_list : list string) : M unit :=
  a <- get agent ;;
  match a with
  | None => log INFO "No agent loaded."
  | Some _ =>
      if (length input_list <? 2)%nat then log INFO "Usage: list-actions <connection>"
      else call M_list_actions "connection_manager" [nth 1 input_list ""]
             (fun self => list_actions self (nth 1 input_list ""))
  end.

Definition configure_connection (input_list : list string) : M unit :=
  a <- get agent ;;
  match a with
  | None => log INFO "No agent loaded."
  | Some _ =>
      if (length input_list <? 2)%nat then log INFO "Usage: configure-connection <connection>"
      else call M_configure_connection "connection_manager" [nth 1 input_list ""]
             (fun self => configure_connection self (nth 1 input_list ""))
  end.

Definition list_connections (input_list : list string) : M unit :=
  a <- get agent ;;
  match a with
  | Some _ => call M_list_connections "connection_manager" [] list_connections
  | None => log INFO "No agent loaded."
  end.

(** One turn of the [while True] of [chat_session]: [true] to go on, [false]
    after a [break]. *)
Definition chat_turn (ev : option key_event) (rest : list key_event) : M bool :=
  try_except
    (message <- deliver ev rest (newline ++ "You: ") ;;
     if String.eqb (lower (strip message)) "exit" then ret false
     else
       response <- call M_prompt_llm "prompt_llm" [message]
                     (fun self => prompt_llm self message) ;;
       n <- agent_name ;;
       log INFO (n ++ ": " ++ response) ;;
       print_h_bar ;;
       ret true)
    (except_KeyboardInterrupt (ret false)).

(** The [while True] of [chat_session], over the events [keys] the terminal
    holds when the loop is entered; past their end the input is closed. *)
Fixpoint chat_loop (keys : list key_event) : M unit :=
  match keys with
  | [] => _ <- chat_turn None [] ;; ret tt
  | ev :: rest =>
      go_on <- chat_turn (Some ev) rest ;;
      if go_on : bool then chat_loop rest else ret tt
  end.

Definition chat_session (input_list : list string) : M unit :=
  a <- get agent ;;
  match a with
  | None => log INFO "Load an agent first."
  | Some self =>
      (if negb (ZerePyAgent.is_llm_set self)
       then call M_setup_llm_provider "_setup_llm_provider" [] _setup_llm_provider
       else ret tt) ;;
      print_h_bar ;;
      n <- agent_name ;;
      log INFO ("Chatting with " ++ n) ;;
      print_h_bar ;;
      keys <- get tty ;;
      chat_loop keys
  end.

Definition exit (input_list : list string) : M unit :=
  log INFO "Goodbye!" ;;
  raise (SystemExit 0).

(** [command.handler(input_list)] *)
Definition run_handler (h : handler_id) (input_list : list string) : M unit :=
  match h with
  | H_help => help input_list
  | H_clear_screen => clear_screen input_list
  | H_agent_action => agent_action input_list
  | H_agent_loop => agent_loop input_list
  | H_list_agents => list_agents input_list
  | H_load_agent => load_agent input_list
  | H_create_agent => create_agent input_list
  | H_set_default_agent => set_default_agent input_list
  | H_chat_session => chat_session input_list
  | H_list_actions => list_actions input_list
  | H_configure_connection => configure_connection input_list
  | H_list_connections => list_connections input_list
  | H_exit => exit input_list
  end.

(** The look-up of [_handle_command]: [self.commands.get(token.lower())]. *)
Definition resolve (cmds : dict Command) (token : string) : option Command :=
  dict_get (lower token) cmds.

Definition _handle_command (input_string : string) : M unit :=
  try_except
    (input_list <- lift (shlex_split input_string) ;;
     match input_list with
     | [] => ret tt
     | token :: _ =>
         cmds <- get commands ;;
         match resolve cmds token with
         | Some command => run_handler (handler command) input_list
         | None => _handle_unknown_command (lower token)
         end
     end)
    (except_Exception (fun e => log ERROR ("Error: " ++ msg e))).

(** The clauses of the [try] in [main_loop]. *)
Definition main_loop_except (x : exn) : option (M unit) :=
  match x with
  | KeyboardInterrupt => Some (ret tt)
  | Exception e => if is_EOFError e then Some (exit []) else None
  | SystemExit _ => None
  end.

(** One turn of the [while True] of [main_loop]. *)
Definition main_loop_turn : M unit :=
  try_except
    (text <- _get_prompt_message ;;
     user_input <- prompt text ;;
     if nonempty (strip user_input)
     then _handle_command (strip user_input) ;; print_h_bar
     else ret tt)
    main_loop_except.

(** The [while True] of [main_loop], for at most [fuel] turns.  The loop is
    only left by an exception: the result is that exception and the state
    it leaves, or [None] when the turns are used up. *)
Fixpoint repl (fuel : nat) (st : state) : option (exn * state) :=
  match fuel with
  | 0 => None
  | S fuel' =>
      match main_loop_turn st with
      | (Returned _, st') => repl fuel' st'
      | (Raised x, st') => Some (x, st')
      end
  end.

(** [main_loop]: every turn that returns has read from the terminal, so one
    turn more than the terminal holds events reaches a turn that raises
    (see [main_loop_ends]). *)
Definition main_loop (st : state) : option (exn * state) :=
  match (_print_welcome_message ;; _load_default_agent) st with
  | (Returned _, st') => repl (S (length (tty st'))) st'
  | (Raised x, st') => Some (x, st')
  end.

(** [main()]: construct the shell, run its loop. *)
Definition main (st : state) : option (exn * state) :=
  match __init__ st with
  | (Returned _, st') => main_loop st'
  | (Raised x, st') => Some (x, st')
  end.

End CLI.

End ZerePyCLI.

Import ZerePyCLI.

(** Unfold the statements of a method down to states and outcomes. *)
Ltac run :=
  cbv beta iota zeta delta
    [bind ret raise try_except get put emit log print_h_bar lift deliver prompt
     call construct agent_name except_Exception except_KeyboardInterrupt];
  cbn [agent commands tty general_json write_error agent_files os_name
       config_dir_error session_error out
       set_agent set_commands set_tty set_general_json add_out fst snd
       m_out m_self m_ret].

(* ------------------------------------------------------------------ *)
(** ** Vocabulary of the properties *)

(** The dictionary that [_initialize_commands] builds. *)
Definition register_all (cmds : list Command) (d : dict Command) : dict Command :=
  fold_left (fun d c => register_into c d) cmds d.

Definition ZerePyCLI_commands : dict Command := register_all registered_commands [].

(** No key of [l1] is a key of [l2]. *)
Definition disjointb (l1 l2 : list string) : bool :=
  forallb (fun k => negb (mem k l2)) l1.

(** No two commands of the list share a name or an alias. *)
Fixpoint collision_freeb (cmds : list Command) : bool :=
  match cmds with
  | [] => true
  | c :: r =>
      forallb (fun c' => disjointb (command_keys c) (command_keys c')) r
      && collision_freeb r
  end.

(** Every name and alias of the list is its own lower-case form. *)
Definition lower_keysb (cmds : list Command) : bool :=
  forallb (fun c => forallb (fun k => String.eqb (lower k) k) (command_keys c)) cmds.

(** The handlers that start with the test of [self.agent]. *)
Definition requires_agent (h : handler_id) : bool :=
  match h with
  | H_agent_action | H_agent_loop | H_chat_session
  | H_list_actions | H_configure_connection | H_list_connections => true
  | _ => false
  end.

(** The line such a handler logs when no agent is loaded. *)
Definition no_agent_message (h : handler_id) : string :=
  match h with
  | H_chat_session => "Load an agent first."
  | _ => "No agent loaded."
  end.

Definition method_eq_dec (a b : method) : {a = b} + {a <> b}.
Proof. decide equality. Defined.

(** How often method [m] was entered in a trace. *)
Fixpoint count_calls (m : method) (trace : list output) : nat :=
  match trace with
  | [] => 0
  | Call m' _ :: r =>
      if method_eq_dec m m' then S (count_calls m r) else count_calls m r
  | _ :: r => count_calls m r
  end.

(** A state with nothing in it: no agent, no commands, a closed terminal,
    an empty document in [agents/general.json]. *)
Definition blank_state : state :=
  mk_state None [] [] (Document None) None [] "posix" None None [].

(** A command whose name and aliases are all taken in the dictionary of
    [_initialize_commands]: ["start"] by [agent-loop], ["run"] by
    [agent-action], ["h"] by [help]. *)
Definition colliding_command : Command :=
  new_Command "start" "Start over" [] H_clear_screen (Some ["run"; "h"]).

(** [p] holds of every character of [s]. *)
Fixpoint all_chars (p : ascii -> bool) (s : string) : bool :=
  match s with
  | EmptyString => true
  | String c r => p c && all_chars p r
  end.

(** A character that [shlex] takes as part of a word: no whitespace, no
    quote, no backslash. *)
Definition plainb (c : ascii) : bool :=
  negb (shlex_whitespace c) && negb (shlex_escape c) && negb (shlex_quote c).

(** A non-empty string of such characters. *)
Definition plain_wordb (s : string) : bool := nonempty s && all_chars plainb s.

(** The text that [_get_prompt_message] hands to [HTML] in the state [st]. *)
Definition prompt_markup (st : state) : string :=
  ("<prompt>ZerePy-CLI</prompt> "
   ++ match agent st with
      | Some self => "(" ++ ZerePyAgent.name self ++ ")"
      | None => "(no agent)"
      end
   ++ " > ")%string.

(** The line asks for [exit]: it has a first token, and the token resolves
    to a command whose handler is [exit]. *)
Definition asks_exit (cmds : dict Command) (line : string) : bool :=
  match shlex_split line with
  | inr (token :: _) =>
      match resolve cmds token with
      | Some c => match handler c with H_exit => true | _ => false end
      | None => false
      end
  | _ => false
  end.

(** The turn of the main loop that starts in [st] meets a request to leave:
    end of input at the prompt (Ctrl-D, or a closed terminal), or a line
    that is not blank and asks for [exit]. *)
Definition exit_requested (st : state) : bool :=
  match tty st with
  | [] | CtrlD :: _ => true
  | CtrlC :: _ => false
  | Line text :: _ => nonempty (strip text) && asks_exit (commands st) (strip text)
  end.

(** Character data of XML among the code points below 256: no [<], no [&],
    and of the control characters only tab, line feed and carriage
    return. *)
Definition xml_char_data (c : ascii) : bool :=
  let n := nat_of_ascii c in
  ((32 <=? n) || (n =? 9) || (n =? 10) || (n =? 13))
  && negb (n =? 60) && negb (n =? 38).

(** ["]]>" in s], which XML does not take in character data either. *)
Fixpoint has_cdata_end (s : string) : bool :=
  match s with
  | EmptyString => false
  | String c r =>
      match c, r with
      | "]"%char, String "]"%char (String ">"%char _) => true
      | _, _ => has_cdata_end r
      end
  end.

(** A stand-in for [HTML] that knows the markup of the prompt and nothing
    else: it accepts the element [<prompt>ZerePy-CLI</prompt>] followed by
    character data, as the parser of [prompt_toolkit] does, and rejects
    every other text, as that parser does when the rest holds an [&] with
    no [;] after it (the name [R&D], say), and more often than it does
    otherwise. *)
Definition prompt_markup_only : PromptToolkit.
Proof.
  refine {| HTML text :=
              if String.prefix "<prompt>ZerePy-CLI</prompt>" text
                 && all_chars xml_char_data (substring 27 (String.length text - 27) text)
                 && negb (has_cdata_end text)
              then None
              else Some (ExpatError "not well-formed (invalid token)") |}.
  intros text e.
  destruct (String.prefix "<prompt>ZerePy-CLI</prompt>" text
            && all_chars xml_char_data (substring 27 (String.length text - 27) text)
            && negb (has_cdata_end text)); [discriminate|].
  intros H. injection H as <-. reflexivity.
Defined.

(** The states that returning turns of the main loop lead to from [st],
    [st] itself among them. *)
Inductive turns {impl : AgentImpl} {toolkit : PromptToolkit} : state -> state -> Prop :=
| turns_here (st : state) : turns st st
| turns_on (st st1 st2 : state) :
    main_loop_turn st = (Returned tt, st1) -> turns st1 st2 -> turns st st2.

(** A start in which the home directory takes no new directory: one line
    is waiting on the terminal, and [mkdir] will raise. *)
Definition locked_home : state :=
  mk_state None [] [Line "exit"] (Document None) None [] "posix"
    (Some (mk_error "PermissionError" "[Errno 13] Permission denied")) None [].

(** A session of the shipped shell whose agent has its flag off (the value
    that the comment in [agent.py] proposes for testing), with two lines
    waiting on the terminal. *)
Definition unready_session : state :=
  set_tty [Line "exit"; Line "exit"]
    (set_agent (Some (ZerePyAgent.make "demo" false)) (snd (__init__ blank_state))).

(** A session of the shipped shell with an agent loaded, in which the next
    thing the terminal delivers is end of input. *)
Definition chatting_session : state :=
  set_tty [CtrlD]
    (set_agent (Some (ZerePyAgent.make "demo" true)) (snd (__init__ blank_state))).

(** Between two states of a run: the agent is the same, and what was emitted
    in between enters [_setup_llm_provider] no time. *)
Definition quiet_step (st st' : state) : Prop :=
  agent st' = agent st
  /\ exists emitted,
       out st' = out st ++ emitted
       /\ count_calls M_setup_llm_provider emitted = 0.

(** What every statement of the shell keeps between the state [st] it starts
    in and the state [st'] it ends in with outcome [r]: the terminal holds
    no more events than before, the output is the old one with something
    added, and when the outcome is [SystemExit] its code is 0 and the last
    line added is the farewell. *)
Definition inv {A : Type} (st : state) (r : outcome A) (st' : state) : Prop :=
  length (tty st') <= length (tty st)
  /\ exists emitted,
       out st' = out st ++ emitted
       /\ forall code, r = Raised (SystemExit code) ->
            code = 0%Z /\ exists before, emitted = before ++ [Log INFO "Goodbye!"].

Definition sound {A : Type} (m : M A) : Prop :=
  forall st, inv st (fst (m st)) (snd (m st)).

(** A statement that never raises [SystemExit]. *)
Definition stays {A : Type} (m : M A) : Prop :=
  forall st code, fst (m st) <> Raised (SystemExit code).

(** Every length stored in a [j2len] dictionary is at most [bound]. *)
Definition lengths_le (j2len : list (nat * nat)) (bound : nat) : Prop :=
  forall j, j2len_get j j2len <= bound.

(** A match lies in the rows from [alo] up to, not including, [hi]. *)
Definition in_rows (alo hi : nat) (best : Match) : Prop :=
  alo <= fst (fst best) /\ fst (fst best) + snd best <= hi.

(** The order in which [get_close_matches] returns names for [word]: never a
    less similar name before a more similar one. *)
Definition by_similarity (word : string) (x y : string) : Prop :=
  (ratio y word <= ratio x word)%Q.

(* ------------------------------------------------------------------ *)
(** ** Facts about strings and dictionaries *)

Lemma chr_lower_idempotent (c : ascii) : chr_lower (chr_lower c) = chr_lower c.
Proof.
  destruct c as [[] [] [] [] [] [] [] []]; reflexivity.
Qed.

Lemma lower_idempotent (s : string) : lower (lower s) = lower s.
Proof.
  induction s as [|c r IH]; simpl.
  - reflexivity.
  - now rewrite chr_lower_idempotent, IH.
Qed.

Lemma mem_In (x : string) (l : list string) : mem x l = true <-> In x l.
Proof.
  unfold mem. rewrite existsb_exists. split.
  - intros [y [Hy E]]. apply String.eqb_eq in E. now subst.
  - intros H. exists x. split; [assumption | apply String.eqb_refl].
Qed.

Lemma mem_not_In (x : string) (l : list string) : mem x l = false <-> ~ In x l.
Proof.
  rewrite <- mem_In. destruct (mem x l); split; congruence.
Qed.

Section DictFacts.
Context {V : Type}.
Implicit Types (d : dict V) (k : string) (v : V).

Lemma dict_get_set_eq k v d : dict_get k (dict_set k v d) = Some v.
Proof.
  induction d as [|[k' v'] r IH]; simpl.
  - now rewrite String.eqb_refl.
  - destruct (String.eqb k k') eqn:E; simpl; rewrite E; auto.
Qed.

Lemma dict_get_set_neq k k' v d :
  k <> k' -> dict_get k (dict_set k' v d) = dict_get k d.
Proof.
  intros Hne. induction d as [|[k0 v0] r IH]; simpl.
  - apply String.eqb_neq in Hne. now rewrite Hne.
  - destruct (String.eqb k' k0) eqn:E; simpl.
    + apply String.eqb_eq in E. subst k0.
      apply String.eqb_neq in Hne. now rewrite Hne.
    + now rewrite IH.
Qed.

Lemma dict_get_In_keys k d : dict_get k d <> None <-> In k (dict_keys d).
Proof.
  induction d as [|[k' v'] r IH]; simpl.
  - tauto.
  - destruct (String.eqb k k') eqn:E.
    + apply String.eqb_eq in E. subst. split; [auto | discriminate].
    + apply String.eqb_neq in E. rewrite IH. split; [auto | intros [?|?]; congruence].
Qed.

Lemma dict_get_In k v d : dict_get k d = Some v -> In (k, v) d.
Proof.
  induction d as [|[k' v'] r IH]; simpl; [discriminate|].
  destruct (String.eqb k k') eqn:E.
  - apply String.eqb_eq in E. intros [= ->]. subst. now left.
  - auto.
Qed.

(** Assigning to an absent key appends the entry. *)
Lemma dict_set_absent k v d : dict_get k d = None -> dict_set k v d = d ++ [(k, v)].
Proof.
  induction d as [|[k' v'] r IH]; simpl; [reflexivity|].
  destruct (String.eqb k k'); [discriminate|].
  intros H. now rewrite IH.
Qed.

(** Assigning the value a key already has changes nothing. *)
Lemma dict_set_same k v d : dict_get k d = Some v -> dict_set k v d = d.
Proof.
  induction d as [|[k' v'] r IH]; simpl; [discriminate|].
  destruct (String.eqb k k').
  - now intros [= ->].
  - intros H. now rewrite IH.
Qed.

End DictFacts.

(* ------------------------------------------------------------------ *)
(** ** Facts about registration *)

Lemma fold_set_get (c : Command) (al : list string) (d : dict Command) (k : string) :
  dict_get k (fold_left (fun d a => dict_set a c d) al d)
  = if mem k al then Some c else dict_get k d.
Proof.
  revert d. induction al as [|a r IH]; intros d; simpl.
  - reflexivity.
  - rewrite IH. destruct (mem k r) eqn:Er.
    + now rewrite orb_true_r.
    + rewrite orb_false_r. destruct (String.eqb k a) eqn:E.
      * apply String.eqb_eq in E. subst. apply dict_get_set_eq.
      * apply String.eqb_neq in E. now apply dict_get_set_neq.
Qed.

(** After [register_into c], the keys of [c] are bound to [c] and every
    other key is bound as before. *)
Lemma register_into_get (c : Command) (d : dict Command) (k : string) :
  dict_get k (register_into c d)
  = if mem k (command_keys c) then Some c else dict_get k d.
Proof.
  unfold register_into. rewrite fold_set_get.
  unfold command_keys. simpl. destruct (mem k (aliases c)).
  - now rewrite orb_true_r.
  - rewrite orb_false_r. destruct (String.eqb k (name c)) eqn:E.
    + apply String.eqb_eq in E. subst. apply dict_get_set_eq.
    + apply String.eqb_neq in E. now apply dict_get_set_neq.
Qed.

Lemma disjointb_spec (l1 l2 : list string) :
  disjointb l1 l2 = true <-> (forall k, In k l1 -> ~ In k l2).
Proof.
  unfold disjointb. rewrite forallb_forall. split; intros H k Hk.
  - apply mem_not_In. specialize (H k Hk). now destruct (mem k l2).
  - apply H, mem_not_In in Hk. now rewrite Hk.
Qed.

(** In a collision-free list, a key belongs to one command only. *)
Lemma collision_free_unique (cmds : list Command) :
  collision_freeb cmds = true ->
  forall c c' k, In c cmds -> In c' cmds ->
    In k (command_keys c) -> In k (command_keys c') -> c = c'.
Proof.
  induction cmds as [|c0 r IH]; cbn [collision_freeb In]; [intros _ ? ? ? []|].
  intros H. apply andb_prop in H as [Hd Hr]. rewrite forallb_forall in Hd.
  intros c c' k [->|Hc] [->|Hc'] Hk Hk'.
  - reflexivity.
  - exfalso. pose proof (proj1 (disjointb_spec _ _) (Hd _ Hc')) as Hx. exact (Hx k Hk Hk').
  - exfalso. pose proof (proj1 (disjointb_spec _ _) (Hd _ Hc)) as Hx. exact (Hx k Hk' Hk).
  - eauto.
Qed.

(** Look-up in the dictionary built from a collision-free list: a key of a
    command of the list finds that command, on top of any dictionary. *)
Lemma register_all_get (cmds : list Command) :
  collision_freeb cmds = true ->
  forall d c k, In c cmds -> In k (command_keys c) ->
    dict_get k (register_all cmds d) = Some c.
Proof.
  induction cmds as [|c0 r IH]; cbn [collision_freeb In]; [intros _ ? ? ? []|].
  intros H d c k Hc Hk.
  assert (Hu := collision_free_unique (c0 :: r) H).
  apply andb_prop in H as [Hd Hr].
  destruct Hc as [->|Hc].
  - clear IH. unfold register_all in *. simpl.
    assert (G : forall l d', (forall c', In c' l -> ~ In k (command_keys c')) ->
              dict_get k (fold_left (fun d c => register_into c d) l d') = dict_get k d').
    { induction l as [|c1 l IHl]; intros d' Hl; simpl; [reflexivity|].
      rewrite IHl by (intros; apply Hl; now right).
      rewrite register_into_get.
      assert (Hn : mem k (command_keys c1) = false)
        by (apply mem_not_In, Hl; now left).
      now rewrite Hn. }
    rewrite G.
    + rewrite register_into_get. apply mem_In in Hk. now rewrite Hk.
    + intros c' Hc' Hk'. rewrite forallb_forall in Hd.
      pose proof (proj1 (disjointb_spec _ _) (Hd _ Hc')) as Hx. exact (Hx k Hk Hk').
  - unfold register_all in *. simpl. now apply IH.
Qed.

(** A key that no command of the list owns is bound as before. *)
Lemma register_all_get_other (cmds : list Command) (d : dict Command) (k : string) :
  (forall c, In c cmds -> ~ In k (command_keys c)) ->
  dict_get k (register_all cmds d) = dict_get k d.
Proof.
  revert d. induction cmds as [|c r IH]; intros d H; simpl; [reflexivity|].
  unfold register_all in *. simpl. rewrite IH by (intros; apply H; now right).
  rewrite register_into_get.
  assert (Hn : mem k (command_keys c) = false) by (apply mem_not_In, H; now left).
  now rewrite Hn.
Qed.

Lemma dict_get_app {V : Type} (k : string) (d1 d2 : dict V) :
  dict_get k (d1 ++ d2)
  = match dict_get k d1 with Some v => Some v | None => dict_get k d2 end.
Proof.
  induction d1 as [|[k' v'] r IH]; simpl; [reflexivity|].
  now destruct (String.eqb k k').
Qed.

Lemma dict_get_block (c : Command) (k : string) (ks : list string) :
  dict_get k (map (fun k' => (k', c)) ks) = if mem k ks then Some c else None.
Proof.
  induction ks as [|k0 r IH]; simpl; [reflexivity|].
  destruct (String.eqb k k0); [reflexivity | exact IH].
Qed.

(** Registering the aliases of [c] on top of a dictionary [d] that has none
    of them, after some keys [ks] of [c] were appended: more keys of [c] are
    appended, nothing else moves. *)
Lemma fold_set_fresh (c : Command) (d : dict Command) (al ks : list string) :
  (forall k, In k al -> dict_get k d = None) ->
  exists ks',
    fold_left (fun d a => dict_set a c d) al (d ++ map (fun k => (k, c)) ks)
    = d ++ map (fun k => (k, c)) (ks ++ ks')
    /\ incl ks' al.
Proof.
  revert ks. induction al as [|a r IH]; intros ks Hal; simpl.
  - exists []. rewrite app_nil_r. split; [reflexivity | apply incl_refl].
  - assert (Hr : forall k, In k r -> dict_get k d = None) by (intros; apply Hal; now right).
    assert (Ha : dict_get a (d ++ map (fun k => (k, c)) ks)
                 = if mem a ks then Some c else None).
    { rewrite dict_get_app, (Hal a) by now left. apply dict_get_block. }
    destruct (mem a ks) eqn:Em.
    + rewrite (dict_set_same _ _ _ Ha).
      destruct (IH ks Hr) as [ks' [E I]]. exists ks'. split; [exact E|].
      now apply incl_tl.
    + rewrite (dict_set_absent _ _ _ Ha), <- app_assoc.
      change [(a, c)] with (map (fun k => (k, c)) [a]). rewrite <- map_app.
      destruct (IH (ks ++ [a]) Hr) as [ks' [E I]].
      exists (a :: ks'). rewrite E, <- app_assoc. split; [reflexivity|].
      apply incl_cons; [now left | now apply incl_tl].
Qed.

(** Registering a command none of whose keys is present appends a block of
    entries for it, at least one, all under keys of the command. *)
Lemma register_into_fresh (c : Command) (d : dict Command) :
  (forall k, In k (command_keys c) -> dict_get k d = None) ->
  exists ks,
    register_into c d = d ++ map (fun k => (k, c)) (name c :: ks)
    /\ incl ks (aliases c).
Proof.
  intros H. unfold register_into.
  rewrite dict_set_absent by (apply H; now left).
  change [(name c, c)] with (map (fun k => (k, c)) [name c]).
  destruct (fold_set_fresh c d (aliases c) [name c]) as [ks [E I]].
  - intros k Hk. apply H. now right.
  - exists ks. split; [exact E | exact I].
Qed.

Lemma dict_values_block (c : Command) (ks : list string) :
  dict_values (map (fun k => (k, c)) ks) = repeat c (length ks).
Proof.
  induction ks as [|k r IH]; simpl; [reflexivity|]. f_equal. exact IH.
Qed.

(* ------------------------------------------------------------------ *)
(** ** Facts about the listing of [help] *)

Lemma listed_app (l1 l2 : list Command) (seen : list string) :
  listed (l1 ++ l2) seen
  = listed l1 seen ++ listed l2 (rev (map name (listed l1 seen)) ++ seen).
Proof.
  revert seen. induction l1 as [|a r IH]; intros seen; simpl; [reflexivity|].
  destruct (mem (name a) seen); [apply IH|].
  simpl. rewrite IH, <- app_assoc. reflexivity.
Qed.

Lemma listed_seen (c : Command) (n : nat) (seen : list string) :
  mem (name c) seen = true -> listed (repeat c n) seen = [].
Proof.
  intros H. induction n as [|n IH]; simpl; [reflexivity|]. now rewrite H.
Qed.

(** A block of entries of one command is listed as that command, once. *)
Lemma listed_block (c : Command) (n : nat) (seen : list string) :
  mem (name c) seen = false -> listed (repeat c (S n)) seen = [c].
Proof.
  intros H. simpl. rewrite H, listed_seen; [reflexivity|].
  simpl. now rewrite String.eqb_refl.
Qed.

(** The listing of a dictionary built by registering a collision-free list
    of commands, on top of a dictionary that has none of their keys: what was
    listed before, then the commands in the order of their registration. *)
Lemma listed_register_all (cmds : list Command) :
  collision_freeb cmds = true ->
  forall (d : dict Command) (seen : list string),
    (forall c k, In c cmds -> In k (command_keys c) -> dict_get k d = None) ->
    (forall c, In c cmds ->
       mem (name c) (rev (map name (listed (dict_values d) seen)) ++ seen) = false) ->
    listed (dict_values (register_all cmds d)) seen
    = listed (dict_values d) seen ++ cmds.
Proof.
  induction cmds as [|c r IH]; cbn [collision_freeb]; intros Hcf d seen Hd Hs.
  - simpl. now rewrite app_nil_r.
  - apply andb_prop in Hcf as [Hdis Hr]. rewrite forallb_forall in Hdis.
    destruct (register_into_fresh c d) as [ks [E I]].
    { intros k Hk. apply (Hd c k); [now left | exact Hk]. }
    assert (Hl : listed (dict_values (register_into c d)) seen
                 = listed (dict_values d) seen ++ [c]).
    { rewrite E. unfold dict_values. rewrite map_app.
      fold (dict_values d). fold (dict_values (map (fun k => (k, c)) (name c :: ks))).
      rewrite dict_values_block, listed_app. simpl length.
      rewrite listed_block; [reflexivity|]. apply Hs. now left. }
    change (register_all (c :: r) d) with (register_all r (register_into c d)).
    rewrite IH; [now rewrite Hl, <- app_assoc | exact Hr | |].
    + intros c' k Hc' Hk. rewrite E, dict_get_app, (Hd c' k) by (auto; now right).
      rewrite dict_get_block.
      assert (Hn : mem k (name c :: ks) = false).
      { apply mem_not_In. intros Hin.
        pose proof (proj1 (disjointb_spec _ _) (Hdis _ Hc')) as Hx.
        apply (Hx k); [|exact Hk].
        destruct Hin as [<-|Hin]; [now left | right; now apply I]. }
      now rewrite Hn.
    + intros c' Hc'. rewrite Hl, map_app, rev_app_distr. simpl.
      assert (Hne : String.eqb (name c') (name c) = false).
      { apply String.eqb_neq. intros Heq.
        pose proof (proj1 (disjointb_spec _ _) (Hdis _ Hc')) as Hx.
        apply (Hx (name c)); [now left | left; now symmetry]. }
      rewrite Hne. simpl. apply Hs. now right.
Qed.

Lemma collision_free_NoDup (cmds : list Command) :
  collision_freeb cmds = true -> NoDup cmds.
Proof.
  induction cmds as [|c r IH]; cbn [collision_freeb]; intros H; constructor.
  - apply andb_prop in H as [Hd _]. rewrite forallb_forall in Hd.
    intros Hin. pose proof (proj1 (disjointb_spec _ _) (Hd _ Hin)) as Hx.
    apply (Hx (name c)); now left.
  - apply andb_prop in H as [_ Hr]. auto.
Qed.

(** Where a binding of a dictionary built by [register_all] comes from. *)
Lemma register_all_get_inv (cmds : list Command) (d : dict Command) (k : string) (c : Command) :
  dict_get k (register_all cmds d) = Some c ->
  (In c cmds /\ In k (command_keys c)) \/ dict_get k d = Some c.
Proof.
  revert d. induction cmds as [|c0 r IH]; intros d; simpl; [now right|].
  change (register_all (c0 :: r) d) with (register_all r (register_into c0 d)).
  intros H. destruct (IH _ H) as [[Hc Hk]|Hd].
  - left. split; [now right | exact Hk].
  - rewrite register_into_get in Hd. destruct (mem k (command_keys c0)) eqn:Em.
    + injection Hd as <-. left. split; [now left | exact (proj1 (mem_In _ _) Em)].
    + now right.
Qed.

Lemma lower_keys_stable (cmds : list Command) :
  lower_keysb cmds = true ->
  forall c k, In c cmds -> In k (command_keys c) -> lower k = k.
Proof.
  unfold lower_keysb. rewrite forallb_forall. intros H c k Hc Hk.
  specialize (H c Hc). cbv beta in H. rewrite forallb_forall in H.
  now apply String.eqb_eq, H.
Qed.

(** Resolution in a dictionary built from a collision-free list with
    lower-case keys: every key of a command resolves to that command. *)
Lemma resolve_registered (cmds : list Command) (d : dict Command) :
  collision_freeb cmds = true -> lower_keysb cmds = true ->
  forall c k, In c cmds -> In k (command_keys c) ->
    resolve (register_all cmds d) k = Some c.
Proof.
  intros Hcf Hlow c k Hc Hk. unfold resolve.
  rewrite (lower_keys_stable cmds Hlow c k Hc Hk).
  now apply register_all_get.
Qed.

Lemma registered_collision_free : collision_freeb registered_commands = true.
Proof. vm_compute. reflexivity. Qed.

Lemma registered_lower_keys : lower_keysb registered_commands = true.
Proof. vm_compute. reflexivity. Qed.

Lemma initialize_commands (st : state) :
  _initialize_commands st = (Returned tt, set_commands ZerePyCLI_commands st).
Proof. reflexivity. Qed.

(** The constructor returns when the configuration directory can be made
    and the prompt session can be built; it raises what the first of them
    that fails raises, before or after the dictionary is built. *)
Lemma init_commands (st : state) :
  __init__ st
  = match config_dir_error st, session_error st with
    | Some e, _ => (Raised (Exception e), set_agent None st)
    | None, Some e =>
        (Raised (Exception e), set_commands ZerePyCLI_commands (set_agent None st))
    | None, None => (Returned tt, set_commands ZerePyCLI_commands (set_agent None st))
    end.
Proof.
  unfold __init__, mkdir_config_dir, _setup_prompt_toolkit.
  unfold bind at 1. unfold put at 1. cbv beta iota.
  unfold bind at 1. unfold bind at 1. unfold get at 1. cbv beta iota.
  change (config_dir_error (set_agent None st)) with (config_dir_error st).
  destruct (config_dir_error st) as [e|]; [reflexivity|].
  unfold ret at 1. cbv beta iota.
  unfold bind at 1. rewrite initialize_commands. cbv beta iota.
  unfold bind, get.
  change (session_error (set_commands ZerePyCLI_commands (set_agent None st)))
    with (session_error st).
  destruct (session_error st); reflexivity.
Qed.

Lemma add_out_add_out (o1 o2 : list output) (st : state) :
  add_out o2 (add_out o1 st) = add_out (o1 ++ o2) st.
Proof.
  unfold add_out. simpl. now rewrite app_assoc.
Qed.

(* ------------------------------------------------------------------ *)
(** ** The command registry *)

(** C1, as the code has it: [_register_command] returns normally for every
    command and every state, binds the name and every alias of the command
    to it, and leaves every other key bound as it was; a key that was
    present is rebound, nothing is refused. *)
Theorem register_command_rebinds (command : Command) (st : state) :
  _register_command command st
  = (Returned tt, set_commands (register_into command (commands st)) st)
  /\ (forall k, In k (command_keys command) ->
        dict_get k (register_into command (commands st)) = Some command)
  /\ (forall k, ~ In k (command_keys command) ->
        dict_get k (register_into command (commands st)) = dict_get k (commands st)).
Proof.
  split; [reflexivity|]. split; intros k Hk; rewrite register_into_get.
  - apply mem_In in Hk. now rewrite Hk.
  - apply mem_not_In in Hk. now rewrite Hk.
Qed.

(** C1, the claim refuted: in the dictionary of [_initialize_commands] the
    key ["h"] is bound to [help] and ["start"] to [agent-loop]; registering
    a command named ["start"] with alias ["h"] returns normally, and both
    keys are bound to the new command afterwards. *)
Lemma register_command_overwrites_silently :
  resolve (commands (snd (__init__ blank_state))) "h"
    = nth_error registered_commands 0
  /\ resolve (commands (snd (__init__ blank_state))) "start"
    = nth_error registered_commands 3
  /\ fst (_register_command colliding_command (snd (__init__ blank_state)))
    = Returned tt
  /\ resolve (commands (snd (_register_command colliding_command
                                (snd (__init__ blank_state))))) "h"
    = Some colliding_command
  /\ resolve (commands (snd (_register_command colliding_command
                                (snd (__init__ blank_state))))) "start"
    = Some colliding_command
  /\ nth_error registered_commands 0 <> Some colliding_command
  /\ nth_error registered_commands 3 <> Some colliding_command.
Proof.
  repeat split; try (vm_compute; reflexivity); vm_compute; discriminate.
Qed.

(** C4: in the dictionary that [_initialize_commands] builds, the name of every
    registered command and each of its aliases resolve to that command, and
    the alias belongs to no other registered command. *)
Theorem resolve_name_and_aliases (st : state) (c : Command) (a : string) :
  In c registered_commands -> In a (aliases c) ->
  resolve (commands (snd (_initialize_commands st))) (name c) = Some c
  /\ resolve (commands (snd (_initialize_commands st))) a = Some c
  /\ (forall c', In c' registered_commands -> In a (command_keys c') -> c' = c).
Proof.
  intros Hc Ha. rewrite initialize_commands. cbn [snd commands set_commands].
  pose proof registered_collision_free as Hcf.
  pose proof registered_lower_keys as Hlow.
  split; [|split].
  - apply resolve_registered; auto. now left.
  - apply resolve_registered; auto. now right.
  - intros c' Hc' Ha'.
    apply (collision_free_unique _ Hcf c' c a); auto. now right.
Qed.

(** C4 at work: [agent-action] and its alias [run]. *)
Lemma resolve_name_and_aliases_witness :
  resolve (commands (snd (_initialize_commands blank_state))) "agent-action"
    = nth_error registered_commands 2
  /\ resolve (commands (snd (_initialize_commands blank_state))) "run"
    = nth_error registered_commands 2.
Proof.
  destruct (resolve_name_and_aliases blank_state
              (new_Command "agent-action" "Run agent action" ["agent-action conn action"]
                 H_agent_action (Some ["action"; "run"])) "run") as [H1 [H2 _]].
  - simpl. tauto.
  - simpl. tauto.
  - split; [exact H1 | exact H2].
Defined.

(** C5: resolution lower-cases the token.  In the dictionary that
    [_initialize_commands] builds, a token and its lower-case form resolve alike (["HELP"] as
    ["help"]); a token resolves to a command exactly when it equals one of
    the command's keys up to case, and to nothing exactly when it equals no
    key of a registered command up to case. *)
Theorem resolve_case_insensitive (st : state) (token : string) :
  resolve (commands (snd (_initialize_commands st))) token
    = resolve (commands (snd (_initialize_commands st))) (lower token)
  /\ resolve (commands (snd (_initialize_commands st))) "HELP"
    = resolve (commands (snd (_initialize_commands st))) "help"
  /\ (forall c, resolve (commands (snd (_initialize_commands st))) token = Some c <->
        exists k, In c registered_commands /\ In k (command_keys c) /\ eq_nocase token k)
  /\ (resolve (commands (snd (_initialize_commands st))) token = None <->
        forall c k, In c registered_commands -> In k (command_keys c) -> ~ eq_nocase token k).
Proof.
  rewrite initialize_commands. cbn [snd commands set_commands].
  pose proof registered_collision_free as Hcf.
  pose proof registered_lower_keys as Hlow.
  assert (Hiff : forall c, resolve ZerePyCLI_commands token = Some c <->
            exists k, In c registered_commands /\ In k (command_keys c) /\ eq_nocase token k).
  { intros c. split.
    - intros H. apply register_all_get_inv in H as [[Hc Hk]|H]; [|discriminate].
      exists (lower token). repeat split; auto.
      unfold eq_nocase. now rewrite lower_idempotent.
    - intros [k [Hc [Hk E]]]. unfold resolve, eq_nocase in *.
      rewrite E, (lower_keys_stable _ Hlow c k Hc Hk).
      now apply register_all_get. }
  split; [|split; [|split]].
  - unfold resolve. now rewrite lower_idempotent.
  - reflexivity.
  - exact Hiff.
  - split.
    + intros Hn c k Hc Hk E.
      assert (Hs : resolve ZerePyCLI_commands token = Some c)
        by (apply Hiff; eauto).
      congruence.
    + intros Hno. destruct (resolve ZerePyCLI_commands token) as [c|] eqn:E; [|reflexivity].
      destruct (proj1 (Hiff c) eq_refl) as [k [Hc [Hk Ek]]].
      exfalso. exact (Hno c k Hc Hk Ek).
Qed.

(** C7: the listing of [help] in the dictionary that [_initialize_commands]
    builds: the
    thirteen registered commands, each once, in the order of registration,
    although the dictionary holds thirty-five entries for them. *)
Theorem help_lists_each_command_once (st : state) (input_list : list string) :
  length input_list <= 1 ->
  help input_list (snd (_initialize_commands st))
    = (Returned tt,
       add_out (Log INFO "Commands:" :: map help_line registered_commands)
               (snd (_initialize_commands st)))
  /\ listed (dict_values (commands (snd (_initialize_commands st)))) [] = registered_commands
  /\ NoDup registered_commands
  /\ length (dict_values (commands (snd (_initialize_commands st)))) = 35.
Proof.
  intros Hlen. rewrite initialize_commands. cbn [snd].
  pose proof registered_collision_free as Hcf.
  assert (Hl : listed (dict_values ZerePyCLI_commands) [] = registered_commands).
  { unfold ZerePyCLI_commands.
    rewrite listed_register_all; auto. }
  split; [|split; [|split]].
  - unfold help, bind, get, log, emit. cbn [commands set_commands].
    assert (E : (1 <? length input_list) = false) by (apply Nat.ltb_ge; exact Hlen).
    rewrite E, Hl, add_out_add_out. reflexivity.
  - exact Hl.
  - now apply collision_free_NoDup.
  - reflexivity.
Qed.

(** C7 at work: [help] without argument, right after [_initialize_commands]. *)
Lemma help_lists_each_command_once_witness :
  fst (help ["help"] (snd (_initialize_commands blank_state))) = Returned tt
  /\ out (snd (help ["help"] (snd (_initialize_commands blank_state))))
     = Log INFO "Commands:" :: map help_line registered_commands.
Proof.
  destruct (help_lists_each_command_once blank_state ["help"]) as [H _].
  - simpl. lia.
  - rewrite H. split; reflexivity.
Defined.

(* ------------------------------------------------------------------ *)
(** ** Facts about [shlex.split] on plain words *)

Lemma append_snoc (tok : string) (c : ascii) (w : string) :
  (snoc tok c ++ w)%string = (tok ++ String c w)%string.
Proof.
  unfold snoc. induction tok as [|t r IH]; simpl; [reflexivity|]. now rewrite IH.
Qed.

Lemma nonempty_snoc (tok : string) (c : ascii) : nonempty (snoc tok c) = true.
Proof. destruct tok; reflexivity. Qed.

Lemma append_empty_r (s : string) : (s ++ "")%string = s.
Proof. induction s as [|c r IH]; simpl; [reflexivity | now rewrite IH]. Qed.

(** Inside a word, plain characters are added to the token. *)
Lemma shlex_read_word (w : string) :
  all_chars plainb w = true ->
  forall tok quoted, nonempty tok = true ->
    shlex_read w S_word tok quoted = inr [(tok ++ w)%string].
Proof.
  induction w as [|c r IH]; intros Hw tok quoted Htok.
  - simpl. rewrite Htok, append_empty_r. reflexivity.
  - simpl in Hw. apply andb_prop in Hw as [Hc Hr].
    unfold plainb in Hc. apply andb_prop in Hc as [Hc Hq]. apply andb_prop in Hc as [Hws Hesc].
    apply negb_true_iff in Hws, Hesc, Hq.
    cbn [shlex_read]. rewrite Hws, Hq, Hesc.
    rewrite IH by (auto using nonempty_snoc). now rewrite append_snoc.
Qed.

(** A plain word alone is one token, itself. *)
Lemma shlex_read_plain (s : string) :
  plain_wordb s = true -> shlex_read s S_space "" false = inr [s].
Proof.
  unfold plain_wordb. destruct s as [|c r]; [discriminate|]. cbn [nonempty andb all_chars].
  intros H. apply andb_prop in H as [Hc Hr].
  unfold plainb in Hc. apply andb_prop in Hc as [Hc Hq]. apply andb_prop in Hc as [Hws Hesc].
  apply negb_true_iff in Hws, Hesc, Hq.
  cbn [shlex_read]. rewrite Hws, Hq, Hesc.
  now rewrite shlex_read_word.
Qed.

Lemma plainb_chr_lower (c : ascii) : plainb (chr_lower c) = plainb c.
Proof.
  destruct c as [[] [] [] [] [] [] [] []]; reflexivity.
Qed.

Lemma plain_wordb_lower (s : string) : plain_wordb (lower s) = plain_wordb s.
Proof.
  unfold plain_wordb. f_equal.
  - now destruct s.
  - induction s as [|c r IH]; simpl; [reflexivity|]. now rewrite plainb_chr_lower, IH.
Qed.

Lemma registered_plain_keys :
  forallb (fun c => forallb plain_wordb (command_keys c)) registered_commands = true.
Proof. vm_compute. reflexivity. Qed.

(** Every spelling of a key of a registered command is a plain word. *)
Lemma spelling_plain (c : Command) (k s : string) :
  In c registered_commands -> In k (command_keys c) -> lower s = k ->
  plain_wordb s = true.
Proof.
  intros Hc Hk E. rewrite <- plain_wordb_lower, E.
  pose proof registered_plain_keys as H. rewrite forallb_forall in H.
  specialize (H c Hc). cbv beta in H. rewrite forallb_forall in H. now apply H.
Qed.

(* ------------------------------------------------------------------ *)
(** ** Facts about statements *)

Lemma add_out_nil (st : state) : add_out [] st = st.
Proof. destruct st. unfold add_out. simpl. now rewrite app_nil_r. Qed.

Lemma for_each_log {A : Type} (lv : level) (f : A -> string) (l : list A) (st : state) :
  for_each l (fun x => log lv (f x)) st
  = (Returned tt, add_out (map (fun x => Log lv (f x)) l) st).
Proof.
  revert st. induction l as [|x r IH]; intros st; simpl.
  - unfold ret. now rewrite add_out_nil.
  - unfold bind, log, emit. rewrite IH, add_out_add_out. reflexivity.
Qed.

Section Session.
Context {impl : AgentImpl}.

(** What [_handle_command] does with a line whose first token resolves. *)
Lemma handle_command_resolved (line token : string) (rest : list string)
  (c : Command) (st : state) :
  shlex_split line = inr (token :: rest) ->
  resolve (commands st) token = Some c ->
  _handle_command line st
  = try_except (run_handler (handler c) (token :: rest))
      (except_Exception (fun e => log ERROR ("Error: " ++ msg e))) st.
Proof.
  intros Hs Hr. unfold _handle_command, try_except, bind, lift, get.
  rewrite Hs. unfold ret. now rewrite Hr.
Qed.

(* ------------------------------------------------------------------ *)
(** ** Commands that need an agent *)

(** C3: a handler that needs an agent, run in a state without one, returns
    after logging its one line ("No agent loaded.", or "Load an agent
    first." for chat): the state is the old one with that line added to the
    output, whatever the agent class, so no method of an agent or of a
    connection manager was entered and nothing else changed; run again, it
    does the same again.  The same holds when the handler is reached through
    [_handle_command]. *)
Theorem no_agent_short_circuit (h : handler_id) (input_list : list string) (st : state) :
  requires_agent h = true -> agent st = None ->
  run_handler h input_list st
    = (Returned tt, add_out [Log INFO (no_agent_message h)] st)
  /\ run_handler h input_list (snd (run_handler h input_list st))
    = (Returned tt, add_out [Log INFO (no_agent_message h); Log INFO (no_agent_message h)] st)
  /\ (forall line c,
        shlex_split line = inr input_list ->
        resolve (commands st) (hd "" input_list) = Some c -> handler c = h ->
        input_list <> [] ->
        _handle_command line st
          = (Returned tt, add_out [Log INFO (no_agent_message h)] st)).
Proof.
  intros Hreq Hnone.
  assert (H1 : forall il st', agent st' = None ->
            run_handler h il st'
            = (Returned tt, add_out [Log INFO (no_agent_message h)] st')).
  { intros il st' Hn.
    destruct h; try discriminate Hreq;
      cbn [run_handler no_agent_message];
      unfold agent_action, agent_loop, chat_session, list_actions,
             configure_connection, list_connections, bind, get;
      rewrite Hn; reflexivity. }
  split; [|split].
  - now apply H1.
  - rewrite (H1 _ st Hnone). cbn [snd].
    rewrite (H1 input_list (add_out [Log INFO (no_agent_message h)] st) Hnone).
    rewrite add_out_add_out. reflexivity.
  - intros line c Hs Hr Hh Hne. destruct input_list as [|token rest]; [congruence|].
    cbn [hd] in Hr. rewrite (handle_command_resolved line token rest c st Hs Hr), Hh.
    unfold try_except. now rewrite (H1 _ st Hnone).
Qed.

(* ------------------------------------------------------------------ *)
(** ** Loading an agent *)

(** C9: when the constructor of the agent raises, [_load_agent_from_file]
    logs the error and returns, and the state is the old one with the
    attempt and the error line added to the output: [self.agent] is what it
    was, an agent or none.  [load_agent] with a name does just that. *)
Theorem load_agent_failure_keeps_agent (agent_name_arg : string) (e : error) (st : state) :
  snd (new_agent agent_name_arg) = inl e ->
  _load_agent_from_file agent_name_arg st
    = (Returned tt,
       add_out (Call M_init [agent_name_arg] :: fst (new_agent agent_name_arg)
                ++ [Log ERROR ("Could not load agent: " ++ msg e)]) st)
  /\ agent (snd (_load_agent_from_file agent_name_arg st)) = agent st
  /\ (forall input_list, 2 <= length input_list ->
        nth 1 input_list ""%string = agent_name_arg ->
        load_agent input_list st = _load_agent_from_file agent_name_arg st).
Proof.
  intros Hnew.
  assert (H : _load_agent_from_file agent_name_arg st
    = (Returned tt,
       add_out (Call M_init [agent_name_arg] :: fst (new_agent agent_name_arg)
                ++ [Log ERROR ("Could not load agent: " ++ msg e)]) st)).
  { unfold _load_agent_from_file, try_except, construct, bind, emit, lift.
    rewrite Hnew. unfold raise, except_Exception, log, emit.
    rewrite add_out_add_out. reflexivity. }
  split; [exact H|]. split.
  - now rewrite H.
  - intros input_list Hlen Hn. unfold load_agent.
    assert (E : (length input_list <? 2) = false) by (apply Nat.ltb_ge; exact Hlen).
    now rewrite E, Hn.
Qed.

End Session.

(** C9 at work: agent [demo] is loaded, loading [ghost] fails, [demo] stays. *)
Lemma load_agent_failure_keeps_agent_witness :
  agent (snd (@_load_agent_from_file unloadable_agent "ghost"
                (set_agent (Some (ZerePyAgent.make "demo" true)) blank_state)))
  = Some (ZerePyAgent.make "demo" true).
Proof.
  destruct (@load_agent_failure_keeps_agent unloadable_agent "ghost"
              (mk_error "FileNotFoundError" "No such agent: ghost")
              (set_agent (Some (ZerePyAgent.make "demo" true)) blank_state))
    as [_ [H _]].
  - reflexivity.
  - exact H.
Defined.

(** C3 at work: [run conn act] with no agent loaded. *)
Lemma no_agent_short_circuit_witness :
  @run_handler shipped_agent H_agent_action ["run"; "conn"; "act"] blank_state
  = (Returned tt, add_out [Log INFO "No agent loaded."] blank_state).
Proof.
  destruct (@no_agent_short_circuit shipped_agent H_agent_action
              ["run"; "conn"; "act"] blank_state) as [H _].
  - reflexivity.
  - reflexivity.
  - exact H.
Defined.

(* ------------------------------------------------------------------ *)
(** ** The argument of [help] *)

Section HelpArgument.
Context {impl : AgentImpl}.

(** A spelling of a registered key that is not the key itself is no key of
    the dictionary. *)
Lemma spelling_not_a_key (c : Command) (k s : string) :
  In c registered_commands -> In k (command_keys c) -> lower s = k -> s <> k ->
  dict_get s ZerePyCLI_commands = None.
Proof.
  intros Hc Hk E Hne.
  destruct (dict_get s ZerePyCLI_commands) as [c'|] eqn:G; [|reflexivity].
  apply register_all_get_inv in G as [[Hc' Hk']|G]; [|discriminate].
  exfalso. apply Hne. rewrite <- E.
  symmetry. exact (lower_keys_stable _ registered_lower_keys c' s Hc' Hk').
Qed.

(** C10: in a state with the dictionary of [_initialize_commands], let [s]
    be a spelling of a key [k] of a registered command [c] that differs from
    [k] in case.  Then [help] with argument [s] logs "Command not found.",
    also when typed as the line [help s]; the line [s] itself runs the
    handler of [c]; and [help] with the key [k] as written logs the name,
    the description and the tips of [c]. *)
Theorem help_lookup_case_sensitive (st : state) (c : Command) (k s h : string)
  (rest : list string) :
  commands st = ZerePyCLI_commands ->
  In c registered_commands -> In k (command_keys c) -> lower s = k -> s <> k ->
  help (h :: s :: rest) st
    = (Returned tt, add_out [Log WARNING "Command not found."] st)
  /\ _handle_command ("help " ++ s) st
    = (Returned tt, add_out [Log WARNING "Command not found."] st)
  /\ _handle_command s st
    = try_except (run_handler (handler c) [s])
        (except_Exception (fun e => log ERROR ("Error: " ++ msg e))) st
  /\ help (h :: k :: rest) st
    = (Returned tt,
       add_out (Log INFO (name c ++ ": " ++ description c)
                :: map (fun tip => Log INFO ("  - " ++ tip)%string) (tips c)) st).
Proof.
  intros Hcmds Hc Hk E Hne.
  assert (Hplain : plain_wordb s = true) by exact (spelling_plain c k s Hc Hk E).
  assert (Hmiss : forall h' rest',
            help (h' :: s :: rest') st
            = (Returned tt, add_out [Log WARNING "Command not found."] st)).
  { intros h' rest'. unfold help, bind, get. cbn [length Nat.ltb Nat.leb nth].
    rewrite Hcmds, (spelling_not_a_key c k s Hc Hk E Hne). reflexivity. }
  split; [apply Hmiss|]. split; [|split].
  - rewrite (handle_command_resolved _ "help" [s] (new_Command "help" "Show help"
               ["help"; "help load-agent"] H_help (Some ["h"; "?"])) st).
    + cbn [handler new_Command run_handler]. unfold try_except. now rewrite Hmiss.
    + unfold shlex_split. cbn [append shlex_read]. cbn.
      now rewrite shlex_read_plain.
    + rewrite Hcmds. reflexivity.
  - apply handle_command_resolved.
    + unfold shlex_split. now apply shlex_read_plain.
    + rewrite Hcmds. unfold resolve. rewrite E.
      apply register_all_get; auto using registered_collision_free.
  - unfold help, bind, get. cbn [length Nat.ltb Nat.leb nth].
    rewrite Hcmds.
    assert (G : dict_get k ZerePyCLI_commands = Some c)
      by (apply register_all_get; auto using registered_collision_free).
    rewrite G. unfold log at 1. unfold emit.
    rewrite (for_each_log INFO (fun tip => ("  - " ++ tip)%string)), add_out_add_out.
    reflexivity.
Qed.

End HelpArgument.

(** C10 at work: [help H] finds nothing, [help h] describes [help]. *)
Lemma help_lookup_case_sensitive_witness :
  @help ["help"; "H"] (snd (__init__ blank_state))
    = (Returned tt, add_out [Log WARNING "Command not found."] (snd (__init__ blank_state)))
  /\ @help ["help"; "h"] (snd (__init__ blank_state))
    = (Returned tt,
       add_out [Log INFO "help: Show help"; Log INFO "  - help";
                Log INFO "  - help load-agent"] (snd (__init__ blank_state))).
Proof.
  destruct (@help_lookup_case_sensitive shipped_agent (snd (__init__ blank_state))
              (new_Command "help" "Show help" ["help"; "help load-agent"] H_help
                 (Some ["h"; "?"]))
              "h" "H" "help" []) as [H1 [_ [_ H4]]].
  - reflexivity.
  - simpl. tauto.
  - simpl. tauto.
  - reflexivity.
  - discriminate.
  - split; [exact H1 | exact H4].
Defined.

(* ------------------------------------------------------------------ *)
(** ** The chat command and the provider *)

Lemma count_calls_app (m : method) (t1 t2 : list output) :
  count_calls m (t1 ++ t2) = count_calls m t1 + count_calls m t2.
Proof.
  induction t1 as [|o r IH]; simpl; [reflexivity|].
  destruct o; auto. destruct (method_eq_dec m m0); simpl; now rewrite IH.
Qed.

Lemma quiet_step_refl (st : state) : quiet_step st st.
Proof.
  split; [reflexivity|]. exists []. now rewrite app_nil_r.
Qed.

Lemma quiet_step_trans (st1 st2 st3 : state) :
  quiet_step st1 st2 -> quiet_step st2 st3 -> quiet_step st1 st3.
Proof.
  intros [A1 [e1 [O1 C1]]] [A2 [e2 [O2 C2]]]. split; [congruence|].
  exists (e1 ++ e2). split.
  - now rewrite O2, O1, app_assoc.
  - now rewrite count_calls_app, C1, C2.
Qed.

(** One turn of the chat loop with the shipped agent. *)
Lemma chat_turn_quiet (ev : option key_event) (rest : list key_event) (st : state)
  (self : ZerePyAgent.t) :
  agent st = Some self ->
  quiet_step st (snd (@chat_turn shipped_agent ev rest st)).
Proof.
  intros Ha.
  assert (Q : forall em k, count_calls M_setup_llm_provider em = 0 ->
            quiet_step st (add_out em (set_tty k st))).
  { intros em k Hc. split; [reflexivity|]. exists em. now split. }
  unfold chat_turn.
  destruct ev as [[message| |]|]; run.
  - destruct (String.eqb (lower (strip message)) "exit"); run.
    + apply Q. reflexivity.
    + rewrite Ha. cbn [prompt_llm shipped_agent]. unfold returns. run.
      split; [now rewrite Ha|].
      cbn [out add_out set_agent set_tty]. eexists. split; [rewrite <- !app_assoc; reflexivity | reflexivity].
  - apply Q. reflexivity.
  - apply Q. reflexivity.
  - apply Q. reflexivity.
Qed.

Lemma chat_loop_quiet (keys : list key_event) (st : state) (self : ZerePyAgent.t) :
  agent st = Some self ->
  quiet_step st (snd (@chat_loop shipped_agent keys st)).
Proof.
  revert st. induction keys as [|ev rest IH]; intros st Ha; cbn [chat_loop]; unfold bind.
  - pose proof (chat_turn_quiet None [] st self Ha) as Q.
    destruct (chat_turn None [] st) as [[b|x] st']; exact Q.
  - pose proof (chat_turn_quiet (Some ev) rest st self Ha) as Q.
    destruct (chat_turn (Some ev) rest st) as [[b|x] st']; cbn [snd] in *; [|exact Q].
    destruct b; [|exact Q].
    apply (quiet_step_trans _ _ _ Q). apply IH.
    destruct Q as [A _]. congruence.
Qed.

(* ------------------------------------------------------------------ *)
(** ** Every statement of the shell is [sound] *)

Lemma inv_same {A : Type} (st : state) (r : outcome A) :
  (forall code, r <> Raised (SystemExit code)) -> inv st r st.
Proof.
  intros H. split; [lia|]. exists []. split; [now rewrite app_nil_r|].
  intros code E. now apply H in E.
Qed.

Lemma inv_emit {A : Type} (st : state) (r : outcome A) (o : list output) (st' : state) :
  tty st' = tty st -> out st' = out st ++ o ->
  (forall code, r <> Raised (SystemExit code)) -> inv st r st'.
Proof.
  intros Ht Ho H. split; [rewrite Ht; lia|]. exists o. split; [exact Ho|].
  intros code E. now apply H in E.
Qed.

(** A step that returned, then a step with outcome [r]. *)
Lemma inv_seq {A B : Type} (st st1 st2 : state) (a : A) (r : outcome B) :
  inv st (Returned a) st1 -> inv st1 r st2 -> inv st r st2.
Proof.
  intros [T1 [e1 [O1 _]]] [T2 [e2 [O2 X2]]]. split; [lia|].
  exists (e1 ++ e2). split; [now rewrite O2, O1, app_assoc|].
  intros code E. destruct (X2 code E) as [Hc [b Hb]]. split; [exact Hc|].
  exists (e1 ++ b). now rewrite Hb, app_assoc.
Qed.

(** A step that raised something an [except] clause caught, then the clause. *)
Lemma inv_catch {A B : Type} (st st1 st2 : state) (x : exn) (r : outcome B) :
  inv st (@Raised A x) st1 -> inv st1 r st2 -> inv st r st2.
Proof.
  intros [T1 [e1 [O1 _]]] [T2 [e2 [O2 X2]]]. split; [lia|].
  exists (e1 ++ e2). split; [now rewrite O2, O1, app_assoc|].
  intros code E. destruct (X2 code E) as [Hc [b Hb]]. split; [exact Hc|].
  exists (e1 ++ b). now rewrite Hb, app_assoc.
Qed.

(** The outcome may change its type when an exception passes through. *)
Lemma inv_raised {A B : Type} (st st' : state) (x : exn) :
  inv st (@Raised A x) st' -> inv st (@Raised B x) st'.
Proof.
  intros [T [e [O X]]]. split; [exact T|]. exists e. split; [exact O|].
  intros code E. apply (X code). congruence.
Qed.

Lemma sound_ret {A : Type} (a : A) : sound (ret a).
Proof. intros st. apply inv_same. discriminate. Qed.

Lemma sound_get {A : Type} (f : state -> A) : sound (get f).
Proof. intros st. apply inv_same. discriminate. Qed.

Lemma sound_raise_Exception {A : Type} (e : error) : sound (@raise A (Exception e)).
Proof. intros st. apply inv_same. discriminate. Qed.

Lemma sound_raise_KeyboardInterrupt {A : Type} : sound (@raise A KeyboardInterrupt).
Proof. intros st. apply inv_same. discriminate. Qed.

Lemma sound_emit (o : list output) : sound (emit o).
Proof. intros st. apply (inv_emit _ _ o); [reflexivity | reflexivity | discriminate]. Qed.

Lemma sound_log (lv : level) (text : string) : sound (log lv text).
Proof. apply sound_emit. Qed.

Lemma sound_print_h_bar : sound print_h_bar.
Proof. apply sound_emit. Qed.

Lemma sound_put (f : state -> state) :
  (forall st, tty (f st) = tty st /\ out (f st) = out st) -> sound (put f).
Proof.
  intros H st. destruct (H st) as [Ht Ho].
  apply (inv_emit _ _ []); cbn [put fst snd]; auto.
  - now rewrite app_nil_r.
  - discriminate.
Qed.

Lemma inv_bind {A B : Type} (m : M A) (k : A -> M B) (st : state) :
  inv st (fst (m st)) (snd (m st)) -> (forall a, sound (k a)) ->
  inv st (fst (bind m k st)) (snd (bind m k st)).
Proof.
  intros Hm Hk. unfold bind.
  destruct (m st) as [[a|x] st1]; cbn [fst snd] in *.
  - exact (inv_seq _ _ _ _ _ Hm (Hk a st1)).
  - exact (inv_raised _ _ _ Hm).
Qed.

Lemma inv_try_except {A : Type} (body : M A) (handlers : exn -> option (M A)) (st : state) :
  inv st (fst (body st)) (snd (body st)) ->
  (forall x clause, handlers x = Some clause -> sound clause) ->
  inv st (fst (try_except body handlers st)) (snd (try_except body handlers st)).
Proof.
  intros Hb Hh. unfold try_except.
  destruct (body st) as [[a|x] st1]; cbn [fst snd] in *; [exact Hb|].
  destruct (handlers x) as [clause|] eqn:E; [|exact Hb].
  exact (inv_catch _ _ _ _ _ Hb (Hh x clause E st1)).
Qed.

Lemma sound_bind {A B : Type} (m : M A) (k : A -> M B) :
  sound m -> (forall a, sound (k a)) -> sound (bind m k).
Proof. intros Hm Hk st. apply inv_bind; auto. Qed.

Lemma sound_try_except {A : Type} (body : M A) (handlers : exn -> option (M A)) :
  sound body ->
  (forall x clause, handlers x = Some clause -> sound clause) ->
  sound (try_except body handlers).
Proof. intros Hb Hh st. apply inv_try_except; auto. Qed.

Lemma sound_except_Exception {A : Type} (clause : error -> M A) (x : exn) (c : M A) :
  (forall e, sound (clause e)) -> except_Exception clause x = Some c -> sound c.
Proof.
  intros H. destruct x; cbn; intros E; try discriminate. injection E as <-. apply H.
Qed.

Lemma sound_except_KeyboardInterrupt {A : Type} (clause : M A) (x : exn) (c : M A) :
  sound clause -> except_KeyboardInterrupt clause x = Some c -> sound c.
Proof.
  intros H. destruct x; cbn; intros E; try discriminate. now injection E as <-.
Qed.

Lemma sound_lift {A : Type} (r : error + A) : sound (lift r).
Proof.
  destruct r; cbn [lift]; [apply sound_raise_Exception | apply sound_ret].
Qed.

Lemma sound_for_each {A : Type} (l : list A) (body : A -> M unit) :
  (forall x, sound (body x)) -> sound (for_each l body).
Proof.
  intros H. induction l as [|x r IH]; cbn [for_each].
  - apply sound_ret.
  - apply sound_bind; auto.
Qed.

Lemma sound_exit (input_list : list string) : sound (exit input_list).
Proof.
  intros st. cbv [exit bind log emit raise]. cbn [fst snd].
  split; [cbn; lia|]. exists [Log INFO "Goodbye!"]. split; [reflexivity|].
  intros code E. injection E as <-. split; [reflexivity|]. now exists [].
Qed.

Section Soundness.
Context {impl : AgentImpl}.

Lemma sound_call {A : Type} (m : method) (attr : string) (args : list string)
  (f : ZerePyAgent.t -> method_result A) : sound (call m attr args f).
Proof.
  intros st. unfold call. destruct (agent st) as [self|].
  - destruct (m_ret (f self)); cbn [fst snd];
      apply (inv_emit _ _ (Call m args :: m_out (f self)));
      try reflexivity; discriminate.
  - apply inv_same. discriminate.
Qed.

Lemma sound_construct (n : string) : sound (construct n).
Proof.
  unfold construct. apply sound_bind; [apply sound_emit | intros; apply sound_lift].
Qed.

Lemma sound_agent_name : sound agent_name.
Proof.
  unfold agent_name. apply sound_bind; [apply sound_get|].
  intros [self|]; [apply sound_ret | apply sound_raise_Exception].
Qed.

(** [prompt] takes one event off the terminal, if there is one. *)
Lemma sound_prompt (text : string) : sound (prompt text).
Proof.
  intros st. unfold prompt, bind, get.
  destruct (tty st) as [|ev rest] eqn:Et.
  - cbv [deliver bind put emit raise]. cbn [fst snd].
    apply (inv_emit _ _ [Prompt text]); cbn; auto. discriminate.
  - cbv [deliver bind put emit]. cbn [fst snd].
    destruct ev; cbv [ret raise]; cbn [fst snd];
      (split; [cbn; rewrite Et; cbn; lia|]);
      exists [Prompt text]; (split; [reflexivity | discriminate]).
Qed.

End Soundness.

(** One step of the proof that a statement is [sound], by its shape. *)
Ltac sound_step :=
  match goal with
  | |- sound (bind _ _) => apply sound_bind; [|intros ?; cbv beta]
  | |- sound (try_except _ _) => apply sound_try_except; [|intros ? ? ?]
  | |- sound (ret _) => apply sound_ret
  | |- sound (get _) => apply sound_get
  | |- sound (log _ _) => apply sound_log
  | |- sound (emit _) => apply sound_emit
  | |- sound print_h_bar => apply sound_print_h_bar
  | |- sound (lift _) => apply sound_lift
  | |- sound (call _ _ _ _) => apply sound_call
  | |- sound (construct _) => apply sound_construct
  | |- sound agent_name => apply sound_agent_name
  | |- sound (prompt _) => apply sound_prompt
  | |- sound (exit _) => apply sound_exit
  | |- sound (raise (Exception _)) => apply sound_raise_Exception
  | |- sound (raise KeyboardInterrupt) => apply sound_raise_KeyboardInterrupt
  | |- sound (for_each _ _) => apply sound_for_each; intros ?; cbv beta
  | |- sound (put _) => apply sound_put; intros ?; split; reflexivity
  | H : except_Exception _ _ = Some _ |- sound _ =>
      eapply sound_except_Exception; [|exact H]; intros ?; cbv beta
  | H : except_KeyboardInterrupt _ _ = Some _ |- sound _ =>
      eapply sound_except_KeyboardInterrupt; [|exact H]
  | |- sound (match ?x with _ => _ end) => destruct x
  end.

Ltac sound_tac := repeat sound_step.

Section SoundHandlers.
Context {impl : AgentImpl}.

Lemma sound_get_command_suggestions (command : string) (n : nat) :
  sound (_get_command_suggestions command n).
Proof. unfold _get_command_suggestions. sound_tac. Qed.

Lemma sound_handle_unknown_command (command : string) :
  sound (_handle_unknown_command command).
Proof.
  unfold _handle_unknown_command. sound_tac.
  apply sound_get_command_suggestions.
Qed.

Lemma sound_print_welcome_message : sound _print_welcome_message.
Proof. unfold _print_welcome_message. sound_tac. Qed.

Lemma sound_load_agent_from_file (n : string) : sound (_load_agent_from_file n).
Proof. unfold _load_agent_from_file. sound_tac. Qed.

Lemma sound_read_general_json : sound read_general_json.
Proof. unfold read_general_json. sound_tac. Qed.

Lemma sound_load_default_agent : sound _load_default_agent.
Proof.
  unfold _load_default_agent. sound_tac;
    auto using sound_read_general_json, sound_load_agent_from_file.
Qed.

(** One turn of the chat loop leaves on the terminal what it was given as
    the rest. *)
Lemma chat_turn_tty (ev : option key_event) (rest : list key_event) (st : state) :
  tty (snd (chat_turn ev rest st)) = rest.
Proof.
  unfold chat_turn. destruct ev as [[message| |]|]; run; try reflexivity.
  destruct (String.eqb (lower (strip message)) "exit"); run; [reflexivity|].
  destruct (agent st) as [self|]; run; [|reflexivity].
  destruct (m_ret (prompt_llm self message)); run; reflexivity.
Qed.

Lemma inv_deliver (ev : option key_event) (rest : list key_event) (text : string)
  (st : state) :
  length rest <= length (tty st) ->
  inv st (fst (deliver ev rest text st)) (snd (deliver ev rest text st)).
Proof.
  intros Hlen. unfold deliver. run.
  destruct ev as [[message| |]|]; run;
    (split; [exact Hlen|]); exists [Prompt text]; (split; [reflexivity | discriminate]).
Qed.

Lemma inv_chat_turn (ev : option key_event) (rest : list key_event) (st : state) :
  length rest <= length (tty st) ->
  inv st (fst (chat_turn ev rest st)) (snd (chat_turn ev rest st)).
Proof.
  intros Hlen. unfold chat_turn. apply inv_try_except.
  - apply inv_bind; [now apply inv_deliver|]. intros message. sound_tac.
  - intros x clause H. sound_tac.
Qed.

Lemma inv_chat_loop (keys : list key_event) (st : state) :
  length keys <= length (tty st) ->
  inv st (fst (chat_loop keys st)) (snd (chat_loop keys st)).
Proof.
  revert st. induction keys as [|ev rest IH]; intros st Hlen; cbn [chat_loop].
  - apply inv_bind; [apply inv_chat_turn; cbn; lia | intros; apply sound_ret].
  - assert (Hturn := inv_chat_turn (Some ev) rest st).
    assert (Htty := chat_turn_tty (Some ev) rest st).
    unfold bind. destruct (chat_turn (Some ev) rest st) as [[go_on|x] st1];
      cbn [fst snd] in *.
    + destruct go_on.
      * apply (inv_seq _ _ _ _ _ (Hturn ltac:(cbn in Hlen; lia))).
        apply IH. rewrite Htty. lia.
      * apply (inv_seq _ _ _ _ _ (Hturn ltac:(cbn in Hlen; lia))).
        apply sound_ret.
    + apply (@inv_raised bool unit st st1 x). apply Hturn. cbn in Hlen. lia.
Qed.

Lemma sound_chat_entry : sound (bind (get tty) (fun keys => chat_loop keys)).
Proof.
  intros st. unfold bind, get. apply inv_chat_loop. lia.
Qed.

Lemma sound_run_handler (h : handler_id) (input_list : list string) :
  sound (run_handler h input_list).
Proof.
  destruct h; cbn [run_handler].
  - unfold help. sound_tac.
  - unfold clear_screen. sound_tac. apply sound_print_welcome_message.
  - unfold agent_action. sound_tac.
  - unfold agent_loop. sound_tac.
  - unfold list_agents. sound_tac.
  - unfold load_agent. sound_tac. apply sound_load_agent_from_file.
  - unfold create_agent. sound_tac.
  - unfold set_default_agent. sound_tac. apply sound_read_general_json.
  - unfold chat_session. repeat (apply sound_chat_entry || sound_step).
  - unfold list_actions. sound_tac.
  - unfold configure_connection. sound_tac.
  - unfold list_connections. sound_tac.
  - apply sound_exit.
Qed.

Lemma sound_handle_command (line : string) : sound (_handle_command line).
Proof.
  unfold _handle_command. sound_tac.
  - apply sound_run_handler.
  - apply sound_handle_unknown_command.
Qed.

End SoundHandlers.

(* ------------------------------------------------------------------ *)
(** ** Only [exit] raises [SystemExit] *)

Lemma stays_ret {A : Type} (a : A) : stays (ret a).
Proof. intros st code. discriminate. Qed.

Lemma stays_get {A : Type} (g : state -> A) : stays (get g).
Proof. intros st code. discriminate. Qed.

Lemma stays_put (update : state -> state) : stays (put update).
Proof. intros st code. discriminate. Qed.

Lemma stays_emit (o : list output) : stays (emit o).
Proof. intros st code. discriminate. Qed.

Lemma stays_raise_Exception {A : Type} (e : error) : stays (@raise A (Exception e)).
Proof. intros st code. discriminate. Qed.

Lemma stays_raise_KeyboardInterrupt {A : Type} : stays (@raise A KeyboardInterrupt).
Proof. intros st code. discriminate. Qed.

Lemma stays_bind {A B : Type} (m : M A) (k : A -> M B) :
  stays m -> (forall a, stays (k a)) -> stays (bind m k).
Proof.
  intros Hm Hk st code. unfold bind. specialize (Hm st code).
  destruct (m st) as [[a|x] st1]; cbn [fst] in *; [apply Hk|].
  intros E. injection E as ->. now apply Hm.
Qed.

Lemma stays_try_except {A : Type} (body : M A) (handlers : exn -> option (M A)) :
  stays body ->
  (forall x clause, handlers x = Some clause -> stays clause) ->
  stays (try_except body handlers).
Proof.
  intros Hb Hh st code. unfold try_except. specialize (Hb st code).
  destruct (body st) as [[a|x] st1]; cbn [fst] in *; [discriminate|].
  destruct (handlers x) as [clause|] eqn:E; [apply (Hh x clause E) | exact Hb].
Qed.

Lemma stays_except_Exception {A : Type} (clause : error -> M A) (x : exn) (c : M A) :
  (forall e, stays (clause e)) -> except_Exception clause x = Some c -> stays c.
Proof.
  intros H. destruct x; cbn; intros E; try discriminate. injection E as <-. apply H.
Qed.

Lemma stays_except_KeyboardInterrupt {A : Type} (clause : M A) (x : exn) (c : M A) :
  stays clause -> except_KeyboardInterrupt clause x = Some c -> stays c.
Proof.
  intros H. destruct x; cbn; intros E; try discriminate. now injection E as <-.
Qed.

Lemma stays_lift {A : Type} (r : error + A) : stays (lift r).
Proof. destruct r; intros st code; discriminate. Qed.

Lemma stays_for_each {A : Type} (l : list A) (body : A -> M unit) :
  (forall x, stays (body x)) -> stays (for_each l body).
Proof.
  intros H. induction l as [|x r IH]; cbn [for_each];
    [apply stays_ret | apply stays_bind; auto].
Qed.

Lemma stays_call {A : Type} (m : method) (attr : string) (args : list string)
  (f : ZerePyAgent.t -> method_result A) : stays (call m attr args f).
Proof.
  intros st code. unfold call. destruct (agent st) as [self|]; [|discriminate].
  destruct (m_ret (f self)); discriminate.
Qed.

Lemma stays_deliver (ev : option key_event) (rest : list key_event) (text : string) :
  stays (deliver ev rest text).
Proof.
  intros st code. unfold deliver. run. destruct ev as [[s| |]|]; discriminate.
Qed.

(** One step of the proof that a statement never raises [SystemExit], by its
    shape. *)
Ltac stays_step :=
  match goal with
  | |- stays (bind _ _) => apply stays_bind; [|intros ?; cbv beta]
  | |- stays (try_except _ _) => apply stays_try_except; [|intros ? ? ?]
  | |- stays (ret _) => apply stays_ret
  | |- stays (get _) => apply stays_get
  | |- stays (put _) => apply stays_put
  | |- stays (raise (Exception _)) => apply stays_raise_Exception
  | |- stays (raise KeyboardInterrupt) => apply stays_raise_KeyboardInterrupt
  | |- stays (raise (no_attribute _)) => apply stays_raise_Exception
  | |- stays (log _ _) => apply stays_emit
  | |- stays (emit _) => apply stays_emit
  | |- stays print_h_bar => apply stays_emit
  | |- stays (lift _) => apply stays_lift
  | |- stays (deliver _ _ _) => apply stays_deliver
  | |- stays (call _ _ _ _) => apply stays_call
  | |- stays (for_each _ _) => apply stays_for_each; intros ?; cbv beta
  | H : except_Exception _ _ = Some _ |- stays _ =>
      eapply stays_except_Exception; [|exact H]; intros ?; cbv beta
  | H : except_KeyboardInterrupt _ _ = Some _ |- stays _ =>
      eapply stays_except_KeyboardInterrupt; [|exact H]
  | |- stays (match ?x with _ => _ end) => destruct x
  end.

Section OnlyExit.
Context {impl : AgentImpl}.

Lemma stays_chat_loop (keys : list key_event) : stays (chat_loop keys).
Proof.
  induction keys as [|ev rest IH]; cbn [chat_loop].
  - unfold chat_turn, agent_name. repeat stays_step.
  - apply stays_bind; [unfold chat_turn, agent_name; repeat stays_step|].
    intros [|]; [exact IH | apply stays_ret].
Qed.

Lemma stays_other_handlers (h : handler_id) (input_list : list string) :
  h <> H_exit -> stays (run_handler h input_list).
Proof.
  intros He. destruct h; try congruence; cbn [run_handler].
  - unfold help. repeat stays_step.
  - unfold clear_screen, _print_welcome_message. repeat stays_step.
  - unfold agent_action. repeat stays_step.
  - unfold agent_loop. repeat stays_step.
  - unfold list_agents. repeat stays_step.
  - unfold load_agent, _load_agent_from_file, construct, agent_name. repeat stays_step.
  - unfold create_agent. repeat stays_step.
  - unfold set_default_agent, read_general_json. repeat stays_step.
  - unfold chat_session, agent_name. repeat (apply stays_chat_loop || stays_step).
  - unfold ZerePyCLI.list_actions. repeat stays_step.
  - unfold ZerePyCLI.configure_connection. repeat stays_step.
  - unfold ZerePyCLI.list_connections. repeat stays_step.
Qed.

Lemma stays_handle_unknown_command (command : string) :
  stays (_handle_unknown_command command).
Proof.
  unfold _handle_unknown_command, _get_command_suggestions. repeat stays_step.
Qed.

(** A line that asks for [exit] gets the farewell and [SystemExit(0)]. *)
Lemma handle_command_exit (line : string) (st : state) :
  asks_exit (commands st) line = true ->
  _handle_command line st = (Raised (SystemExit 0), add_out [Log INFO "Goodbye!"] st).
Proof.
  unfold asks_exit. destruct (shlex_split line) as [e|[|token rest]] eqn:Hs;
    try discriminate.
  destruct (resolve (commands st) token) as [c|] eqn:Hr; [|discriminate].
  destruct (handler c) eqn:Hh; try discriminate. intros _.
  rewrite (handle_command_resolved line token rest c st Hs Hr), Hh. reflexivity.
Qed.

(** No other line raises [SystemExit]. *)
Lemma handle_command_stays (line : string) (st : state) :
  asks_exit (commands st) line = false ->
  forall code, fst (_handle_command line st) <> Raised (SystemExit code).
Proof.
  unfold asks_exit. intros Ha.
  destruct (shlex_split line) as [e|[|token rest]] eqn:Hs.
  - intros code. unfold _handle_command. run. rewrite Hs. discriminate.
  - intros code. unfold _handle_command. run. rewrite Hs. discriminate.
  - destruct (resolve (commands st) token) as [c|] eqn:Hr.
    + rewrite (handle_command_resolved line token rest c st Hs Hr).
      apply stays_try_except.
      * apply stays_other_handlers. intros E. rewrite E in Ha. discriminate.
      * intros x clause H. repeat stays_step.
    + assert (E : _handle_command line st
                  = try_except (_handle_unknown_command (lower token))
                      (except_Exception (fun e => log ERROR ("Error: " ++ msg e))) st).
      { unfold _handle_command, try_except, bind, lift, get.
        rewrite Hs. unfold ret. now rewrite Hr. }
      rewrite E. apply stays_try_except.
      * apply stays_handle_unknown_command.
      * intros x clause H. repeat stays_step.
Qed.

End OnlyExit.

(* ------------------------------------------------------------------ *)
(** ** The dispatcher and the loop *)

Section Robustness.
Context {impl : AgentImpl} {toolkit : PromptToolkit}.

(** No [Exception] leaves [_handle_command]. *)
Lemma handle_command_catches (line : string) (st : state) (e : error) :
  fst (_handle_command line st) <> Raised (Exception e).
Proof.
  unfold _handle_command, try_except.
  match goal with |- context [match ?b st with _ => _ end] => destruct (b st) as [[a|x] st1] end;
    cbn [fst]; [discriminate|].
  destruct x; cbn [except_Exception log emit fst]; discriminate.
Qed.

Lemma load_agent_from_file_returns (n : string) (st : state) :
  fst (_load_agent_from_file n st) = Returned tt.
Proof.
  unfold _load_agent_from_file. run. destruct (snd (new_agent n)); run; reflexivity.
Qed.

(** The start of [main_loop], banner and default agent, always returns. *)
Lemma startup_returns (st : state) :
  fst ((_print_welcome_message ;; _load_default_agent) st) = Returned tt.
Proof.
  unfold _print_welcome_message, _load_default_agent, read_general_json. run.
  destruct (general_json st) as [e|[n|]]; run; try reflexivity.
  destruct (nonempty n); run; [|reflexivity].
  match goal with |- context [_load_agent_from_file n ?s] =>
    pose proof (load_agent_from_file_returns n s) as H;
    destruct (_load_agent_from_file n s) as [r s'] end.
  cbn [fst] in H. now rewrite H.
Qed.

(** [_get_prompt_message] returns the text when [HTML] takes it, and raises
    what [HTML] raises otherwise; the state is as before. *)
Lemma get_prompt_message_spec (st : state) :
  _get_prompt_message st
  = match HTML (prompt_markup st) with
    | Some e => (Raised (Exception e), st)
    | None => (Returned (prompt_markup st), st)
    end.
Proof.
  unfold _get_prompt_message, prompt_markup, bind, get. cbv beta iota zeta.
  destruct (agent st); destruct (HTML _); reflexivity.
Qed.

(** The turn with the prompt text built. *)
Lemma main_loop_turn_eq (st : state) :
  main_loop_turn st
  = match HTML (prompt_markup st) with
    | Some e => (Raised (Exception e), st)
    | None =>
        try_except
          (user_input <- prompt (prompt_markup st) ;;
           if nonempty (strip user_input)
           then _handle_command (strip user_input) ;; print_h_bar
           else ret tt)
          main_loop_except st
    end.
Proof.
  unfold main_loop_turn, try_except. unfold bind at 1.
  rewrite get_prompt_message_spec.
  destruct (HTML (prompt_markup st)) as [e|] eqn:Hh; [|reflexivity].
  unfold main_loop_except. now rewrite (HTML_raises _ _ Hh).
Qed.

(** One turn of the loop, by the prompt text and by what the terminal
    holds.  A text that [HTML] refuses ends the turn with what [HTML]
    raised, before anything is shown or read.  Otherwise a request to leave
    ends it with [SystemExit(0)] after the farewell, and anything else lets
    it return, having taken at least one event off the terminal. *)
Lemma main_loop_turn_spec (st : state) :
  match HTML (prompt_markup st) with
  | Some e => main_loop_turn st = (Raised (Exception e), st)
  | None =>
      if exit_requested st
      then exists st', main_loop_turn st = (Raised (SystemExit 0), st')
                       /\ exists before, out st' = before ++ [Log INFO "Goodbye!"]
      else exists st', main_loop_turn st = (Returned tt, st')
                       /\ length (tty st') < length (tty st)
  end.
Proof.
  rewrite main_loop_turn_eq.
  destruct (HTML (prompt_markup st)) as [e|] eqn:Hh; [reflexivity|].
  - unfold exit_requested, exit. run.
    destruct (tty st) as [|ev rest] eqn:Et; run.
    + eexists. split; [reflexivity|]. run. eexists. reflexivity.
    + destruct ev as [text| |]; run.
      * destruct (nonempty (strip text)); run; cbn [andb].
        -- destruct (asks_exit (commands st) (strip text)) eqn:Ha.
           ++ rewrite handle_command_exit by exact Ha.
              cbn [main_loop_except]. eexists. split; [reflexivity|].
              cbn [out add_out set_tty]. eexists. reflexivity.
           ++ match goal with |- context [_handle_command ?l ?s] =>
                pose proof (sound_handle_command l s) as Hs;
                pose proof (handle_command_catches l s) as Hc;
                pose proof (handle_command_stays l s Ha) as Hx;
                destruct (_handle_command l s) as [[[]|x] st2] end;
                cbn [fst snd] in Hs, Hc, Hx; destruct Hs as [Ht _];
                cbn [tty add_out set_tty] in Ht.
              ** eexists. split; [reflexivity|]. cbn. lia.
              ** destruct x as [e| |code]; cbn [main_loop_except].
                 --- exfalso. now apply (Hc e).
                 --- eexists. split; [reflexivity|]. cbn. lia.
                 --- exfalso. now apply (Hx code).
        -- eexists. split; [reflexivity|]. cbn. lia.
      * eexists. split; [reflexivity|]. cbn. lia.
      * eexists. split; [reflexivity|]. run. eexists. reflexivity.
Qed.

(** A line that is not blank is handled, stripped; a separator follows when
    [_handle_command] returns, and an interrupt that leaves it is
    swallowed. *)
Lemma main_loop_turn_line (st : state) (text : string) (rest : list key_event) :
  HTML (prompt_markup st) = None ->
  tty st = Line text :: rest -> nonempty (strip text) = true ->
  main_loop_turn st
  = match _handle_command (strip text)
            (add_out [Prompt (prompt_markup st)] (set_tty rest st)) with
    | (Returned _, st') => (Returned tt, add_out [Print (repeat_chr "-" 60)] st')
    | (Raised KeyboardInterrupt, st') => (Returned tt, st')
    | (Raised x, st') => (Raised x, st')
    end.
Proof.
  intros Hh Ht Hn. rewrite main_loop_turn_eq, Hh. unfold prompt. run.
  rewrite Ht. run. rewrite Hn.
  match goal with |- context [_handle_command ?l ?s] =>
    pose proof (handle_command_catches l s) as Hc;
    destruct (_handle_command l s) as [[[]|x] st2] end; cbn [fst] in Hc.
  - reflexivity.
  - destruct x as [e| |code]; cbn [main_loop_except]; try reflexivity.
    exfalso. now apply (Hc e).
Qed.

(** What a turn that raises has met. *)
Lemma main_loop_turn_raises (st : state) (x : exn) (st' : state) :
  main_loop_turn st = (Raised x, st') ->
  (x = SystemExit 0 /\ exit_requested st = true
   /\ exists before, out st' = before ++ [Log INFO "Goodbye!"])
  \/ (exists e, x = Exception e /\ HTML (prompt_markup st) = Some e /\ st' = st).
Proof.
  intros E. pose proof (main_loop_turn_spec st) as H.
  destruct (HTML (prompt_markup st)) as [e|].
  - right. exists e. rewrite H in E. injection E as <- <-. auto.
  - destruct (exit_requested st).
    + destruct H as [s [H Hg]]. rewrite H in E. injection E as <- <-. left. auto.
    + destruct H as [s [H _]]. rewrite H in E. discriminate.
Qed.

(** With more turns than the terminal holds events, the loop is left: the
    turns return up to one that raises. *)
Lemma repl_ends (fuel : nat) (st : state) :
  length (tty st) < fuel ->
  exists last x st',
    repl fuel st = Some (x, st') /\ turns st last
    /\ main_loop_turn last = (Raised x, st').
Proof.
  revert st. induction fuel as [|fuel IH]; intros st Hlen; [lia|].
  cbn [repl]. pose proof (main_loop_turn_spec st) as H.
  destruct (main_loop_turn st) as [[[]|x] st1] eqn:E.
  - destruct (HTML (prompt_markup st)); [discriminate|].
    destruct (exit_requested st); destruct H as [s [H Ht]]; [discriminate|].
    injection H as <-.
    destruct (IH st1 ltac:(lia)) as [last [x [st' [Hr [Hturns Hlast]]]]].
    exists last, x, st'. split; [exact Hr|]. split; [|exact Hlast].
    now apply (turns_on st st1 last).
  - exists st, x, st1. split; [reflexivity|]. split; [apply turns_here | exact E].
Qed.

Lemma main_loop_ends (st : state) :
  exists last x st',
    main_loop st = Some (x, st')
    /\ turns (snd ((_print_welcome_message ;; _load_default_agent) st)) last
    /\ main_loop_turn last = (Raised x, st').
Proof.
  unfold main_loop. pose proof (startup_returns st) as H.
  destruct ((_print_welcome_message ;; _load_default_agent) st) as [r st1].
  cbn [fst snd] in *. rewrite H. apply repl_ends. lia.
Qed.

Lemma main_spec (st : state) :
  main st
  = match config_dir_error st, session_error st with
    | Some e, _ => Some (Exception e, set_agent None st)
    | None, Some e =>
        Some (Exception e, set_commands ZerePyCLI_commands (set_agent None st))
    | None, None => main_loop (set_commands ZerePyCLI_commands (set_agent None st))
    end.
Proof.
  unfold main. rewrite init_commands.
  destruct (config_dir_error st); [reflexivity|].
  destruct (session_error st); reflexivity.
Qed.

(** C2, as the code has it.  An [Exception] raised while a line is handled,
    by the tokenizer or by the handler of the command, ends in an
    error-level log line and a normal return of [_handle_command]; no
    [Exception] ever leaves it, and [SystemExit] leaves it for the lines
    that ask for [exit] and for no other, with code 0 after the farewell.
    A turn of the main loop ends the loop in two cases: it meets a request
    to leave (end of input at the prompt, or a line that asks for [exit])
    and raises [SystemExit(0)] after the farewell, or [HTML] refuses the
    prompt text and what it raised passes through the loop uncaught.  A
    line that is not blank is handled by [_handle_command], and the turn
    returns when that returns or is interrupted.
    Whatever the terminal delivers and whatever [agents/general.json]
    holds, [main_loop] starts up without failing and runs returning turns
    up to a turn of one of these two kinds; [main] does the same when the
    constructor returns, and ends with what the constructor raised when the
    configuration directory cannot be made or the prompt session cannot be
    built. *)
Theorem errors_never_end_the_loop :
  (forall line token rest c st e st1,
     shlex_split line = inr (token :: rest) ->
     resolve (commands st) token = Some c ->
     run_handler (handler c) (token :: rest) st = (Raised (Exception e), st1) ->
     _handle_command line st
     = (Returned tt, add_out [Log ERROR ("Error: " ++ msg e)] st1))
  /\ (forall line st e,
        shlex_split line = inl e ->
        _handle_command line st
        = (Returned tt, add_out [Log ERROR ("Error: " ++ msg e)] st))
  /\ (forall line st e, fst (_handle_command line st) <> Raised (Exception e))
  /\ (forall line st,
        if asks_exit (commands st) line
        then _handle_command line st
             = (Raised (SystemExit 0), add_out [Log INFO "Goodbye!"] st)
        else forall code, fst (_handle_command line st) <> Raised (SystemExit code))
  /\ (forall st,
        match HTML (prompt_markup st) with
        | Some e => main_loop_turn st = (Raised (Exception e), st)
        | None =>
            if exit_requested st
            then exists st', main_loop_turn st = (Raised (SystemExit 0), st')
                             /\ exists before, out st' = before ++ [Log INFO "Goodbye!"]
            else exists st', main_loop_turn st = (Returned tt, st')
                             /\ length (tty st') < length (tty st)
        end)
  /\ (forall st text rest,
        HTML (prompt_markup st) = None ->
        tty st = Line text :: rest -> nonempty (strip text) = true ->
        main_loop_turn st
        = match _handle_command (strip text)
                  (add_out [Prompt (prompt_markup st)] (set_tty rest st)) with
          | (Returned _, st') => (Returned tt, add_out [Print (repeat_chr "-" 60)] st')
          | (Raised KeyboardInterrupt, st') => (Returned tt, st')
          | (Raised x, st') => (Raised x, st')
          end)
  /\ (forall st,
        fst ((_print_welcome_message ;; _load_default_agent) st) = Returned tt
        /\ exists last x st',
             main_loop st = Some (x, st')
             /\ turns (snd ((_print_welcome_message ;; _load_default_agent) st)) last
             /\ main_loop_turn last = (Raised x, st')
             /\ ((x = SystemExit 0 /\ exit_requested last = true
                  /\ exists before, out st' = before ++ [Log INFO "Goodbye!"])
                 \/ (exists e, x = Exception e /\ HTML (prompt_markup last) = Some e
                               /\ st' = last)))
  /\ (forall st,
        main st
        = match config_dir_error st, session_error st with
          | Some e, _ => Some (Exception e, set_agent None st)
          | None, Some e =>
              Some (Exception e, set_commands ZerePyCLI_commands (set_agent None st))
          | None, None =>
              main_loop (set_commands ZerePyCLI_commands (set_agent None st))
          end).
Proof.
  split; [|split; [|split; [|split; [|split; [|split; [|split]]]]]].
  - intros line token rest c st e st1 Hs Hr Hh.
    rewrite (handle_command_resolved line token rest c st Hs Hr).
    unfold try_except. rewrite Hh. reflexivity.
  - intros line st e Hs. unfold _handle_command. run. rewrite Hs. reflexivity.
  - exact handle_command_catches.
  - intros line st. destruct (asks_exit (commands st) line) eqn:Ha.
    + now apply handle_command_exit.
    + now apply handle_command_stays.
  - exact main_loop_turn_spec.
  - exact main_loop_turn_line.
  - intros st. split; [apply startup_returns|].
    destruct (main_loop_ends st) as [last [x [st' [Hm [Ht Hl]]]]].
    exists last, x, st'. repeat (split; [assumption|]).
    now apply main_loop_turn_raises.
  - exact main_spec.
Qed.

End Robustness.

(** C2 at work: end of input inside a chat is an [EOFError] raised in the
    handler, and an unclosed quote is a [ValueError] of the tokenizer; both
    end as an error line, and [_handle_command] returns. *)
Lemma errors_never_end_the_loop_witness :
  @_handle_command shipped_agent "chat" chatting_session
    = (Returned tt,
       add_out [Log ERROR "Error: "]
         (snd (@run_handler shipped_agent H_chat_session ["chat"] chatting_session)))
  /\ @_handle_command shipped_agent "'oops" blank_state
    = (Returned tt, add_out [Log ERROR "Error: No closing quotation"] blank_state).
Proof.
  destruct (@errors_never_end_the_loop shipped_agent prompt_markup_only) as [H1 [H2 _]].
  split.
  - apply (H1 "chat" "chat" []
             (new_Command "chat" "Chat with agent" [] H_chat_session (Some ["talk"]))
             chatting_session EOFError).
    + reflexivity.
    + reflexivity.
    + vm_compute. reflexivity.
  - apply (H2 "'oops" blank_state (ValueError "No closing quotation")). reflexivity.
Defined.

(** C2, the claim refuted.  In the shipped shell the line [load-agent R&D]
    loads an agent of that name; the next prompt text holds [(R&D)], which
    [HTML] refuses, and the [ExpatError] leaves [main_loop] and [main]: the
    line [help] is still waiting on the terminal, no farewell was shown,
    and the run did not end in [SystemExit].  And when the configuration
    directory cannot be made, [main] ends with that error before the loop
    is entered. *)
Lemma markup_in_agent_name_ends_the_loop :
  (exists st',
     @main shipped_agent prompt_markup_only
       (set_tty [Line "load-agent R&D"; Line "help"] blank_state)
     = Some (Exception (ExpatError "not well-formed (invalid token)"), st')
     /\ tty st' = [Line "help"]
     /\ agent st' = Some (ZerePyAgent.make "R&D" true)
     /\ ~ In (Log INFO "Goodbye!") (out st'))
  /\ @main shipped_agent prompt_markup_only
       locked_home
     = Some (Exception (mk_error "PermissionError" "[Errno 13] Permission denied"),
             locked_home).
Proof.
  split; [|vm_compute; reflexivity].
  eexists. split; [vm_compute; reflexivity|].
  split; [reflexivity|]. split; [reflexivity|].
  cbn [out In]. intros H.
  repeat (destruct H as [H|H]; [discriminate|]). exact H.
Qed.

(** C8, as the code has it.  A chat command that finds the flag of the agent
    off enters [_setup_llm_provider] first, before anything else it emits,
    whatever the agent class.  With the shipped agent, neither that method
    nor the rest of the chat command changes the agent, so its flag stays as
    it was found: the command enters the method once when the flag is off
    and not at all when it is on; and the shipped constructor builds agents
    with the flag on. *)
Theorem chat_initializes_when_flag_is_off :
  (forall (impl : AgentImpl) (input_list : list string) (st : state) (self : ZerePyAgent.t),
     agent st = Some self -> ZerePyAgent.is_llm_set self = false ->
     exists rest,
       out (snd (@chat_session impl input_list st))
       = out st ++ Call M_setup_llm_provider [] :: rest)
  /\ (forall (input_list : list string) (st : state) (self : ZerePyAgent.t),
        agent st = Some self ->
        agent (snd (@chat_session shipped_agent input_list st)) = Some self
        /\ exists emitted,
             out (snd (@chat_session shipped_agent input_list st)) = out st ++ emitted
             /\ count_calls M_setup_llm_provider emitted
                = if ZerePyAgent.is_llm_set self then 0 else 1)
  /\ (forall agent_name_arg a,
        snd (@new_agent shipped_agent agent_name_arg) = inr a ->
        ZerePyAgent.is_llm_set a = true).
Proof.
  split; [|split].
  - intros impl input_list st self Ha Hflag.
    set (K := (print_h_bar ;; n <- agent_name ;;
               log INFO ("Chatting with " ++ n) ;; print_h_bar ;;
               keys <- get tty ;; chat_loop keys)).
    assert (HK : sound K)
      by (unfold K; repeat (apply sound_chat_entry || sound_step)).
    assert (E : chat_session input_list st
                = bind (call M_setup_llm_provider "_setup_llm_provider" []
                          _setup_llm_provider) (fun _ => K) st).
    { unfold chat_session. unfold bind at 1. unfold get at 1. cbv beta iota.
      rewrite Ha, Hflag. reflexivity. }
    rewrite E. unfold bind at 1. unfold call. rewrite Ha.
    destruct (m_ret (_setup_llm_provider self)); cbn [snd out add_out].
    + match goal with |- context [K ?s] => destruct (HK s) as [_ [em [Ho _]]] end.
      rewrite Ho. cbn [out add_out]. rewrite <- app_assoc. eexists.
      rewrite <- app_comm_cons. reflexivity.
    + eexists. reflexivity.
    + eexists. reflexivity.
  - intros input_list st self Ha.
    unfold chat_session. run. rewrite Ha.
    destruct (ZerePyAgent.is_llm_set self) eqn:F; cbn [negb]; run; rewrite ?Ha;
      cbn [_setup_llm_provider shipped_agent]; unfold returns; run;
      match goal with |- context [chat_loop ?k ?s] =>
        first [ destruct (chat_loop_quiet k s self eq_refl) as [QA [em [QO QC]]]
              | destruct (chat_loop_quiet k s self Ha) as [QA [em [QO QC]]] ] end;
      cbn [agent out add_out set_agent set_tty] in QA, QO;
      (split; [rewrite QA, ?Ha; reflexivity|]);
      rewrite QO; eexists; (split; [rewrite <- !app_assoc; reflexivity|]);
      rewrite !count_calls_app, QC; reflexivity.
  - intros n a H. cbn in H. injection H as <-. reflexivity.
Qed.

(** C8, the claim refuted: a session of the shipped shell whose agent has
    its flag off, two chat commands, each left at once by typing "exit".
    [_setup_llm_provider] is entered by the first and again by the second,
    and the flag is off in the end as it was at the start. *)
Lemma chat_initializes_again :
  count_calls M_setup_llm_provider
    (out (snd (@_handle_command shipped_agent "chat" unready_session))) = 1
  /\ count_calls M_setup_llm_provider
       (out (snd (@_handle_command shipped_agent "chat"
                    (snd (@_handle_command shipped_agent "chat" unready_session))))) = 2
  /\ agent (snd (@_handle_command shipped_agent "chat"
                   (snd (@_handle_command shipped_agent "chat" unready_session))))
     = Some (ZerePyAgent.make "demo" false).
Proof.
  repeat split; vm_compute; reflexivity.
Qed.

(* ------------------------------------------------------------------ *)
(** ** Facts about [difflib]: the matcher terminates *)

Lemma lengths_le_cons (j k : nat) (m : list (nat * nat)) (bound : nat) :
  k <= bound -> lengths_le m bound -> lengths_le ((j, k) :: m) bound.
Proof.
  intros Hk Hm j'. simpl. destruct (j' =? j); [exact Hk | apply Hm].
Qed.

Lemma lengths_le_nil (bound : nat) : lengths_le [] bound.
Proof. intros j. simpl. lia. Qed.

(** A row of the scan keeps the lengths it stores within the number of rows
    scanned, and its best match within those rows. *)
Lemma scan_row_rows (alo blo bhi i : nat) (j2len : list (nat * nat)) :
  alo <= i -> lengths_le j2len (i - alo) ->
  forall js newj2len best,
    lengths_le newj2len (i + 1 - alo) -> in_rows alo (i + 1) best ->
    lengths_le (fst (scan_row js blo bhi i j2len newj2len best)) (i + 1 - alo)
    /\ in_rows alo (i + 1) (snd (scan_row js blo bhi i j2len newj2len best)).
Proof.
  intros Hi Hold. induction js as [|j rest IH]; intros newj2len best Hnew Hbest.
  - cbn [scan_row fst snd]. now split.
  - cbn [scan_row]. destruct (j <? blo); [now apply IH|].
    destruct (bhi <=? j); [cbn [fst snd]; now split|].
    destruct best as [[besti bestj] bestsize].
    set (k := match j with 0 => 0 | S j' => j2len_get j' j2len end + 1).
    assert (Hk : k <= i + 1 - alo).
    { unfold k. destruct j as [|j']; [lia|]. specialize (Hold j'). lia. }
    apply IH.
    + now apply lengths_le_cons.
    + destruct (bestsize <? k); [|exact Hbest].
      unfold in_rows. cbn [fst snd]. lia.
Qed.

Lemma scan_rows_rows (a b : list ascii) (alo blo bhi : nat) :
  forall n i j2len best,
    alo <= i -> lengths_le j2len (i - alo) -> in_rows alo i best ->
    in_rows alo (i + n) (scan_rows n i a b blo bhi j2len best).
Proof.
  induction n as [|n IH]; intros i j2len best Hi Hlen Hbest; cbn [scan_rows].
  - now rewrite Nat.add_0_r.
  - set (js := match nth_error a i with Some elt => b2j b elt | None => [] end).
    assert (Hbest' : in_rows alo (i + 1) best)
      by (unfold in_rows in *; lia).
    destruct (scan_row_rows alo blo bhi i j2len Hi Hlen js [] best
                (lengths_le_nil _) Hbest') as [Hn Hb].
    destruct (scan_row js blo bhi i j2len [] best) as [newj2len best1].
    cbn [fst snd] in Hn, Hb.
    replace (i + S n) with (S i + n) by lia. apply IH.
    + lia.
    + replace (S i - alo) with (i + 1 - alo) by lia. exact Hn.
    + replace (S i) with (i + 1) by lia. exact Hb.
Qed.

Lemma extend_left_rows (a b : list ascii) (alo blo hi : nat) :
  forall n best, in_rows alo hi best -> in_rows alo hi (extend_left n a b alo blo best).
Proof.
  induction n as [|n IH]; intros [[besti bestj] bestsize] H; cbn [extend_left]; [exact H|].
  destruct ((alo <? besti) && (blo <? bestj) && same_at a b (besti - 1) (bestj - 1)) eqn:E;
    [|exact H].
  apply IH. apply andb_prop in E as [E _]. apply andb_prop in E as [E _].
  apply Nat.ltb_lt in E. unfold in_rows in *. cbn [fst snd] in *. lia.
Qed.

Lemma extend_right_rows (a b : list ascii) (alo ahi bhi : nat) :
  forall n best, in_rows alo ahi best -> in_rows alo ahi (extend_right n a b ahi bhi best).
Proof.
  induction n as [|n IH]; intros [[besti bestj] bestsize] H; cbn [extend_right]; [exact H|].
  destruct ((besti + bestsize <? ahi) && (bestj + bestsize <? bhi)
            && same_at a b (besti + bestsize) (bestj + bestsize)) eqn:E; [|exact H].
  apply IH. apply andb_prop in E as [E _]. apply andb_prop in E as [E _].
  apply Nat.ltb_lt in E. unfold in_rows in *. cbn [fst snd] in *. lia.
Qed.

(** The longest match of a window lies in the rows of the window. *)
Lemma find_longest_match_rows (a b : list ascii) (alo ahi blo bhi : nat) :
  alo <= ahi -> in_rows alo ahi (find_longest_match a b alo ahi blo bhi).
Proof.
  intros H. unfold find_longest_match.
  apply extend_right_rows, extend_left_rows.
  replace ahi with (alo + (ahi - alo)) at 1 by lia.
  apply scan_rows_rows; [lia | apply lengths_le_nil | unfold in_rows; cbn; lia].
Qed.

(** More fuel than the window has rows is enough for [matching_size]. *)
Lemma matching_size_enough (a b : list ascii) :
  forall fuel alo ahi blo bhi,
    alo <= ahi -> ahi - alo < fuel ->
    exists m, matching_size fuel a b alo ahi blo bhi = Some m.
Proof.
  induction fuel as [|fuel IH]; intros alo ahi blo bhi Hle Hfuel; [lia|].
  cbn [matching_size].
  pose proof (find_longest_match_rows a b alo ahi blo bhi Hle) as Hrows.
  destruct (find_longest_match a b alo ahi blo bhi) as [[i j] k].
  unfold in_rows in Hrows. cbn [fst snd] in Hrows.
  destruct (k =? 0) eqn:Ek; [now exists 0|]. apply Nat.eqb_neq in Ek.
  assert (Hl : exists l, (if (alo <? i) && (blo <? j)
                          then matching_size fuel a b alo i blo j else Some 0) = Some l).
  { destruct ((alo <? i) && (blo <? j)); [|now exists 0]. apply IH; lia. }
  assert (Hr : exists r, (if (i + k <? ahi) && (j + k <? bhi)
                          then matching_size fuel a b (i + k) ahi (j + k) bhi else Some 0)
                         = Some r).
  { destruct ((i + k <? ahi) && (j + k <? bhi)); [|now exists 0]. apply IH; lia. }
  destruct Hl as [l ->]. destruct Hr as [r ->]. now exists (k + l + r).
Qed.

(** The count behind [ratio] is computed: the fuel of [matches] is never
    used up. *)
Lemma matching_size_total (a b : list ascii) :
  exists m, matching_size (S (length a)) a b 0 (length a) 0 (length b) = Some m.
Proof. apply matching_size_enough; lia. Qed.

(* ------------------------------------------------------------------ *)
(** ** Facts about [difflib]: the ranking *)

Lemma pair_leb_true (p q : Q * string) : pair_leb q p = true -> (fst q <= fst p)%Q.
Proof.
  unfold pair_leb. destruct (Qcompare_spec (fst q) (fst p)) as [E|L|G]; intros H.
  - rewrite E. apply Qle_refl.
  - now apply Qlt_le_weak.
  - discriminate.
Qed.

Lemma pair_leb_false (p q : Q * string) : pair_leb q p = false -> (fst p <= fst q)%Q.
Proof.
  unfold pair_leb. destruct (Qcompare_spec (fst q) (fst p)) as [E|L|G]; intros H.
  - rewrite E. apply Qle_refl.
  - discriminate.
  - now apply Qlt_le_weak.
Qed.

Lemma insert_desc_In (p x : Q * string) (l : list (Q * string)) :
  In x (insert_desc p l) <-> x = p \/ In x l.
Proof.
  induction l as [|q r IH]; cbn [insert_desc].
  - simpl. intuition.
  - destruct (pair_leb q p); simpl; [intuition|]. rewrite IH. simpl. intuition.
Qed.

Lemma sort_desc_In (x : Q * string) (l : list (Q * string)) :
  In x (sort_desc l) <-> In x l.
Proof.
  induction l as [|p r IH]; cbn [sort_desc fold_right]; [tauto|].
  fold (sort_desc r). rewrite insert_desc_In, IH. simpl. intuition.
Qed.

Lemma insert_desc_sorted (p : Q * string) (l : list (Q * string)) :
  StronglySorted (fun x y => (fst y <= fst x)%Q) l ->
  StronglySorted (fun x y => (fst y <= fst x)%Q) (insert_desc p l).
Proof.
  induction l as [|q r IH]; intros Hs; cbn [insert_desc].
  - constructor; constructor.
  - apply StronglySorted_inv in Hs as [Hr Hq].
    destruct (pair_leb q p) eqn:E.
    + constructor; [constructor; assumption|].
      apply pair_leb_true in E. constructor; [exact E|].
      rewrite Forall_forall in *. intros x Hx.
      apply Qle_trans with (fst q); [now apply Hq | exact E].
    + constructor; [now apply IH|].
      apply pair_leb_false in E. rewrite Forall_forall in *. intros x Hx.
      apply insert_desc_In in Hx as [->|Hx]; [exact E | now apply Hq].
Qed.

Lemma sort_desc_sorted (l : list (Q * string)) :
  StronglySorted (fun x y => (fst y <= fst x)%Q) (sort_desc l).
Proof.
  induction l as [|p r IH]; cbn [sort_desc fold_right]; [constructor|].
  now apply insert_desc_sorted.
Qed.

Lemma firstn_incl {A : Type} (n : nat) (l : list A) (x : A) :
  In x (firstn n l) -> In x l.
Proof.
  revert n. induction l as [|z r IH]; intros [|n]; simpl; try tauto.
  intros [->|H]; [now left | right; eauto].
Qed.

Lemma firstn_sorted {A : Type} (R : A -> A -> Prop) (n : nat) (l : list A) :
  StronglySorted R l -> StronglySorted R (firstn n l).
Proof.
  revert n. induction l as [|x r IH]; intros [|n] Hs; cbn [firstn]; try constructor.
  - apply IH. now apply StronglySorted_inv in Hs.
  - apply StronglySorted_inv in Hs as [_ Hx]. rewrite Forall_forall in *.
    intros y Hy. apply Hx. now apply firstn_incl in Hy.
Qed.

(** Names ranked with their own similarity come out by similarity. *)
Lemma ranked_names_sorted (word : string) (l : list (Q * string)) :
  Forall (fun p => fst p = ratio (snd p) word) l ->
  StronglySorted (fun x y => (fst y <= fst x)%Q) l ->
  StronglySorted (by_similarity word) (map snd l).
Proof.
  induction l as [|p r IH]; intros Hf Hs; cbn [map]; [constructor|].
  inversion Hf as [|? ? Hp Hr]; subst.
  apply StronglySorted_inv in Hs as [Hs Hx].
  constructor; [now apply IH|].
  rewrite Forall_forall in *. intros y Hy. apply in_map_iff in Hy as [q [<- Hq]].
  unfold by_similarity. rewrite <- Hp, <- (Hr q Hq). now apply Hx.
Qed.

(** The contract of [get_close_matches] for a positive [n] and a cutoff
    between 0 and 1. *)
Lemma get_close_matches_contract (word : string) (possibilities : list string)
  (n : nat) (cutoff : Q) :
  n <> 0 -> (0 <= cutoff)%Q -> (cutoff <= 1)%Q ->
  exists l,
    get_close_matches word possibilities n cutoff = inr l
    /\ length l <= n
    /\ (forall x, In x l -> In x possibilities /\ (cutoff <= ratio x word)%Q)
    /\ StronglySorted (by_similarity word) l.
Proof.
  intros Hn H0 H1. unfold get_close_matches.
  apply Nat.eqb_neq in Hn. rewrite Hn.
  apply Qle_bool_iff in H0, H1. rewrite H0, H1. cbn [andb negb].
  eexists. split; [reflexivity|].
  set (result := map (fun x => (ratio x word, x))
                     (filter (close_enough word cutoff) possibilities)).
  assert (Hres : forall p, In p result ->
            fst p = ratio (snd p) word /\ In (snd p) possibilities
            /\ (cutoff <= ratio (snd p) word)%Q).
  { intros p Hp. apply in_map_iff in Hp as [x [<- Hx]].
    apply filter_In in Hx as [Hx Hc]. cbn [fst snd]. repeat split; auto.
    unfold close_enough in Hc. apply andb_prop in Hc as [_ Hc].
    now apply Qle_bool_iff. }
  assert (Hin : forall p, In p (nlargest n result) -> In p result).
  { intros p Hp. unfold nlargest in Hp. apply firstn_incl in Hp.
    exact (proj1 (sort_desc_In p result) Hp). }
  split; [|split].
  - rewrite length_map. unfold nlargest. apply firstn_le_length.
  - intros x Hx. apply in_map_iff in Hx as [p [<- Hp]].
    destruct (Hres p (Hin p Hp)) as [_ [Hposs Hcut]]. now split.
  - apply ranked_names_sorted.
    + rewrite Forall_forall. intros p Hp. now apply Hres, Hin.
    + unfold nlargest. apply firstn_sorted, sort_desc_sorted.
Qed.

(* ------------------------------------------------------------------ *)
(** ** Suggestions for an unknown command *)

(** C6: for every state and every token, [_get_command_suggestions] with its
    default of 3 returns, without touching the state, at most 3 names; each
    is a key of [self.commands], a name or an alias, whose similarity to the
    token is at least 0.6; no name stands before a more similar one; the
    result is a function of the token and the keys; and it is empty when no
    key reaches 0.6.  The similarity itself is always computed.  In the
    dictionary that [_initialize_commands] builds, the token "aciton" gets
    "action", "actions" and "ls-actions", and so not "exit". *)
Theorem suggestions_contract :
  (forall (st : state) (token : string),
     exists l,
       _get_command_suggestions token 3 st = (Returned l, st)
       /\ length l <= 3
       /\ (forall x, In x l ->
             In x (dict_keys (commands st)) /\ (6 # 10 <= ratio x token)%Q)
       /\ StronglySorted (by_similarity token) l
       /\ ((forall k, In k (dict_keys (commands st)) -> ~ (6 # 10 <= ratio k token)%Q) ->
           l = []))
  /\ (forall a b : string,
        exists m, matching_size (S (length (chars a))) (chars a) (chars b)
                    0 (length (chars a)) 0 (length (chars b)) = Some m)
  /\ (forall st : state,
        _get_command_suggestions "aciton" 3 (snd (_initialize_commands st))
        = (Returned ["action"; "actions"; "ls-actions"], snd (_initialize_commands st)))
  /\ In "action" ["action"; "actions"; "ls-actions"]
  /\ ~ In "exit" ["action"; "actions"; "ls-actions"].
Proof.
  split; [|split; [|split; [|split]]].
  - intros st token.
    destruct (get_close_matches_contract token (dict_keys (commands st)) 3 (6 # 10))
      as [l [E [Hlen [Hin Hs]]]]; [discriminate | discriminate | discriminate |].
    exists l. split; [|split; [|split; [|split]]]; auto.
    + unfold _get_command_suggestions, bind, get. rewrite E. reflexivity.
    + intros Hnone. destruct l as [|x r]; [reflexivity|]. exfalso.
      destruct (Hin x (or_introl eq_refl)) as [Hk Hr]. exact (Hnone x Hk Hr).
  - intros a b. apply matching_size_total.
  - intros st. rewrite initialize_commands. cbn [snd].
    unfold _get_command_suggestions, bind, get. cbn [commands set_commands].
    assert (E : get_close_matches "aciton" (dict_keys ZerePyCLI_commands) 3 (6 # 10)
                = inr ["action"; "actions"; "ls-actions"]) by (vm_compute; reflexivity).
    rewrite E. reflexivity.
  - simpl. tauto.
  - simpl. intros [H|[H|[H|[]]]]; discriminate.
Qed.

(* ------------------------------------------------------------------ *)
(** ** Runs of the shipped shell *)

(** What a run of [main] with the shipped agent ends in, for the lines
    [keys] typed on a terminal that is closed afterwards: the exception that
    ends it, the agent that is loaded then, and what was emitted after the
    banner and the attempt to load a default agent (five items).  The prompt
    texts go through [prompt_markup_only]. *)
Definition session_of (keys : list key_event)
  : option (exn * option ZerePyAgent.t * list output) :=
  match @main shipped_agent prompt_markup_only (set_tty keys blank_state) with
  | Some (x, st) => Some (x, agent st, skipn 5 (out st))
  | None => None
  end.

(** Load an agent, run an action with two parameters, exit. *)
Example session_load_action_exit :
  session_of [Line "load-agent demo"; Line "agent-action conn act p1 p2"; Line "exit"]
  = Some (SystemExit 0, Some (ZerePyAgent.make "demo" true),
          [Prompt "<prompt>ZerePy-CLI</prompt> (no agent) > ";
           Call M_init ["demo"];
           Log INFO (loaded_text ++ "demo");
           Print (repeat_chr "-" 60);
           Prompt "<prompt>ZerePy-CLI</prompt> (demo) > ";
           Call M_perform_action ["conn"; "act"; "p1"; "p2"];
           Log INFO "Result: Performed action 'act' on connection 'conn' with params ['p1', 'p2']";
           Print (repeat_chr "-" 60);
           Prompt "<prompt>ZerePy-CLI</prompt> (demo) > ";
           Log INFO "Goodbye!"]).
Proof. vm_compute. reflexivity. Qed.

(** [chat] with no agent loaded: one line, no chat loop. *)
Example session_chat_without_agent :
  session_of [Line "chat"]
  = Some (SystemExit 0, None,
          [Prompt "<prompt>ZerePy-CLI</prompt> (no agent) > ";
           Log INFO "Load an agent first.";
           Print (repeat_chr "-" 60);
           Prompt "<prompt>ZerePy-CLI</prompt> (no agent) > ";
           Log INFO "Goodbye!"]).
Proof. vm_compute. reflexivity. Qed.

(** A blank line and an interrupt only bring the prompt back: nothing is
    dispatched and no separator is printed. *)
Example session_blank_line_and_interrupt :
  session_of [Line "   "; CtrlC]
  = Some (SystemExit 0, None,
          [Prompt "<prompt>ZerePy-CLI</prompt> (no agent) > ";
           Prompt "<prompt>ZerePy-CLI</prompt> (no agent) > ";
           Prompt "<prompt>ZerePy-CLI</prompt> (no agent) > ";
           Log INFO "Goodbye!"]).
Proof. vm_compute. reflexivity. Qed.

(** Loading a second agent replaces the first. *)
Example session_reload :
  option_map (fun r => snd (fst r)) (session_of [Line "load-agent foo"; Line "load-agent bar"])
  = Some (Some (ZerePyAgent.make "bar" true)).
Proof. vm_compute. reflexivity. Qed.

(* ------------------------------------------------------------------ *)
(** * Further properties of the code *)

(** ** Registration in general *)

Lemma register_into_keys (c : Command) (d : dict Command) (k : string) :
  In k (dict_keys (register_into c d)) <-> In k (command_keys c) \/ In k (dict_keys d).
Proof.
  rewrite <- !dict_get_In_keys, register_into_get.
  destruct (mem k (command_keys c)) eqn:E.
  - apply mem_In in E. split; [now left | discriminate].
  - apply mem_not_In in E. tauto.
Qed.

Lemma register_all_app (l1 l2 : list Command) (d : dict Command) :
  register_all (l1 ++ l2) d = register_all l2 (register_all l1 d).
Proof. unfold register_all. apply fold_left_app. Qed.

(** X1: whatever commands are registered, in whatever order and with
    whatever overlaps, the keys of the dictionary afterwards are the keys it
    had and the names and aliases of the commands, nothing else; and a key
    is bound to the last command registered that has it as name or alias. *)
Theorem later_registration_wins (cmds : list Command) (d : dict Command) (k : string) :
  (In k (dict_keys (register_all cmds d))
   <-> In k (dict_keys d) \/ exists c, In c cmds /\ In k (command_keys c))
  /\ (forall before c after,
        cmds = before ++ c :: after ->
        In k (command_keys c) ->
        (forall c', In c' after -> ~ In k (command_keys c')) ->
        dict_get k (register_all cmds d) = Some c).
Proof.
  split.
  - revert d. induction cmds as [|c0 r IH]; intros d.
    + simpl. split; [now left | intros [H|[c [[] _]]]; exact H].
    + change (register_all (c0 :: r) d) with (register_all r (register_into c0 d)).
      rewrite IH, register_into_keys. split.
      * intros [[H|H]|[c [Hc Hk]]].
        -- right. exists c0. split; [now left | exact H].
        -- now left.
        -- right. exists c. split; [now right | exact Hk].
      * intros [H|[c [[->|Hc] Hk]]].
        -- left. now right.
        -- left. now left.
        -- right. now exists c.
  - intros before c after -> Hk Hafter.
    rewrite register_all_app.
    change (register_all (c :: after) (register_all before d))
      with (register_all after (register_into c (register_all before d))).
    rewrite register_all_get_other by exact Hafter.
    rewrite register_into_get. apply mem_In in Hk. now rewrite Hk.
Qed.

(* ------------------------------------------------------------------ *)
(** ** The listing of [help] in general *)

Lemma listed_sound (values : list Command) :
  forall seen c, In c (listed values seen) -> In c values /\ ~ In (name c) seen.
Proof.
  induction values as [|v r IH]; intros seen c; cbn [listed]; [intros []|].
  destruct (mem (name v) seen) eqn:E.
  - intros H. destruct (IH _ _ H). split; [now right | assumption].
  - intros [<-|H].
    + split; [now left | now apply mem_not_In].
    + destruct (IH _ _ H) as [Hin Hn]. split; [now right|].
      intros Hs. apply Hn. now right.
Qed.

(** X2: for any dictionary of commands, the listing of [help] shows no name
    twice, shows only commands of the dictionary, and shows every name that
    some command of the dictionary has. *)
Theorem help_lists_every_name_once (st : state) (input_list : list string) :
  length input_list <= 1 ->
  help input_list st
    = (Returned tt,
       add_out (Log INFO "Commands:"
                :: map help_line (listed (dict_values (commands st)) [])) st)
  /\ NoDup (map name (listed (dict_values (commands st)) []))
  /\ (forall c, In c (listed (dict_values (commands st)) []) ->
        In c (dict_values (commands st)))
  /\ (forall c, In c (dict_values (commands st)) ->
        In (name c) (map name (listed (dict_values (commands st)) []))).
Proof.
  intros Hlen. split; [|split; [|split]].
  - unfold help, bind, get, log, emit.
    assert (E : (1 <? length input_list) = false) by (apply Nat.ltb_ge; exact Hlen).
    rewrite E, add_out_add_out. reflexivity.
  - generalize (@nil string) as seen. generalize (dict_values (commands st)) as values.
    induction values as [|v r IH]; intros seen; cbn [listed map]; [constructor|].
    destruct (mem (name v) seen); [apply IH|].
    cbn [map]. constructor; [|apply IH].
    intros Hin. apply in_map_iff in Hin as [c [Hn Hc]].
    apply listed_sound in Hc as [_ Hc]. apply Hc. left. now symmetry.
  - intros c Hc. now apply listed_sound in Hc.
  - assert (G : forall values seen c, In c values -> ~ In (name c) seen ->
              In (name c) (map name (listed values seen))).
    { induction values as [|v r IH]; intros seen c; cbn [listed]; [intros []|].
      intros [->|Hin] Hs.
      - apply mem_not_In in Hs. rewrite Hs. now left.
      - destruct (mem (name v) seen) eqn:E; [now apply IH|].
        cbn [map]. destruct (string_dec (name v) (name c)) as [Heq|Hne]; [now left|].
        right. apply IH; [exact Hin|]. intros [H|H]; [now apply Hne | now apply Hs]. }
    intros c Hc. apply G; [exact Hc | intros []].
Qed.

(** X2 at work: two commands of one name under different keys are listed
    once. *)
Lemma help_lists_every_name_once_witness :
  NoDup (map name (listed (dict_values (commands
     (set_commands [("a", colliding_command); ("b", colliding_command)] blank_state))) []))
  /\ length (dict_values (commands
     (set_commands [("a", colliding_command); ("b", colliding_command)] blank_state))) = 2.
Proof.
  split; [|reflexivity].
  refine (proj1 (proj2 (help_lists_every_name_once
              (set_commands [("a", colliding_command); ("b", colliding_command)] blank_state)
              ["help"] _))).
  simpl. lia.
Defined.

(* ------------------------------------------------------------------ *)
(** ** Listing the agent files *)

(** X3: [list_agents] logs one line per agent file, in the order of the
    directory, leaving out every file named [general]; it changes nothing
    else and looks at no argument. *)
Theorem list_agents_skips_general (input_list : list string) (st : state) :
  list_agents input_list st
  = (Returned tt,
     add_out (map (fun stem => Log INFO ("- " ++ stem))
                  (filter (fun stem => negb (String.eqb stem "general")) (agent_files st)))
             st).
Proof.
  unfold list_agents, bind, get.
  generalize (agent_files st) as files. intros files. revert st.
  induction files as [|f r IH]; intros st; cbn [for_each filter map].
  - unfold ret. now rewrite add_out_nil.
  - unfold bind. destruct (String.eqb f "general"); cbn [negb].
    + unfold ret. apply IH.
    + unfold log, emit. rewrite IH, add_out_add_out. reflexivity.
Qed.

(* ------------------------------------------------------------------ *)
(** ** Suggestions are the best candidates *)




(* ------------------------------------------------------------------ *)
(** ** What the dispatcher does with a line *)

Lemma lstrip_blank (s : string) : all_chars isspace s = true -> lstrip s = ""%string.
Proof.
  induction s as [|c r IH]; cbn [all_chars lstrip]; [reflexivity|].
  intros H. apply andb_prop in H as [Hc Hr]. rewrite Hc. now apply IH.
Qed.

(** Inside apostrophes every character but the apostrophe is taken as it
    is, up to the closing apostrophe. *)
Lemma shlex_read_quoted (s : string) :
  has_chr (ascii_of_nat 39) s = false ->
  forall r tok quoted,
    shlex_read (s ++ String (ascii_of_nat 39) r) (S_quote (ascii_of_nat 39)) tok quoted
    = shlex_read r S_word (tok ++ s) true.
Proof.
  induction s as [|c s' IH]; intros Hs r tok quoted.
  - cbn [append shlex_read]. rewrite Ascii.eqb_refl, append_empty_r. reflexivity.
  - cbn [has_chr] in Hs. apply orb_false_elim in Hs as [Hc Hs'].
    cbn [append shlex_read]. rewrite Hc.
    replace (shlex_escape c && shlex_escapedquote (ascii_of_nat 39)) with false
      by (symmetry; apply andb_false_r).
    rewrite IH by exact Hs'. now rewrite append_snoc.
Qed.

Lemma set_agent_add_out (a : option ZerePyAgent.t) (o : list output) (st : state) :
  set_agent a (add_out o st) = add_out o (set_agent a st).
Proof. reflexivity. Qed.

Lemma set_tty_add_out (k : list key_event) (o : list output) (st : state) :
  set_tty k (add_out o st) = add_out o (set_tty k st).
Proof. reflexivity. Qed.

Lemma set_tty_set_tty (k k' : list key_event) (st : state) :
  set_tty k (set_tty k' st) = set_tty k st.
Proof. reflexivity. Qed.

Lemma set_agent_set_tty (a : option ZerePyAgent.t) (k : list key_event) (st : state) :
  set_agent a (set_tty k st) = set_tty k (set_agent a st).
Proof. reflexivity. Qed.

Lemma set_agent_same (st : state) : set_agent (agent st) st = st.
Proof. now destruct st. Qed.

Section Dispatch.
Context {impl : AgentImpl} {toolkit : PromptToolkit}.

(** X5: a line whose first token resolves to nothing never fails and changes
    nothing but the output: a warning that quotes the token in lower case,
    then, if [get_close_matches] finds suggestions for it, "Did you mean?"
    and one line per suggestion, then the hint at [help]. *)
Theorem unknown_command_report (line token : string) (rest : list string) (st : state) :
  shlex_split line = inr (token :: rest) ->
  resolve (commands st) token = None ->
  exists l,
    get_close_matches (lower token) (dict_keys (commands st)) 3 (6 # 10) = inr l
    /\ _handle_command line st
       = (Returned tt,
          add_out (Log WARNING ("Unknown command: '" ++ lower token ++ "'")
                   :: match l with
                      | [] => []
                      | _ => Log INFO "Did you mean?"
                             :: map (fun s => Log INFO ("  - " ++ s)%string) l
                      end
                   ++ [Log INFO "Use 'help' to see all commands."]) st).
Proof.
  intros Hs Hr.
  destruct (get_close_matches_contract (lower token) (dict_keys (commands st)) 3 (6 # 10))
    as [l [E _]]; [discriminate | discriminate | discriminate |].
  exists l. split; [exact E|].
  unfold _handle_command, try_except, bind, lift, get. rewrite Hs. unfold ret. rewrite Hr.
  unfold _handle_unknown_command, _get_command_suggestions, bind, get, log, emit.
  cbn [commands add_out]. rewrite E. cbn [lift]. unfold ret.
  destruct l as [|x r].
  - rewrite add_out_add_out. reflexivity.
  - unfold bind, log, emit.
    rewrite (for_each_log INFO (fun s => ("  - " ++ s)%string)).
    rewrite !add_out_add_out. reflexivity.
Qed.

(** X6: [exit], [quit] and [q], in any case and with any arguments, log the
    farewell and raise [SystemExit(0)], which passes through
    [_handle_command]. *)
Theorem exit_ignores_arguments (line token : string) (rest : list string) (st : state) :
  commands st = ZerePyCLI_commands ->
  shlex_split line = inr (token :: rest) ->
  In (lower token) ["exit"; "quit"; "q"]%string ->
  _handle_command line st
  = (Raised (SystemExit 0), add_out [Log INFO "Goodbye!"] st).
Proof.
  intros Hc Hs Hin.
  rewrite (handle_command_resolved line token rest
             (new_Command "exit" "Exit CLI" ["exit"] H_exit (Some ["quit"; "q"])) st Hs).
  - reflexivity.
  - rewrite Hc. unfold resolve.
    destruct Hin as [<-|[<-|[<-|[]]]]; vm_compute; reflexivity.
Qed.

(** X7: when [HTML] takes the prompt text, a line of white space only, and
    an interrupt at the prompt, bring the prompt back: the prompt is shown
    once, one event is taken off the terminal, nothing is dispatched and no
    separator is printed. *)
Theorem blank_line_is_ignored (ev : key_event) (rest : list key_event) (st : state) :
  tty st = ev :: rest ->
  ev = CtrlC \/ (exists text, ev = Line text /\ all_chars isspace text = true) ->
  HTML (prompt_markup st) = None ->
  _get_prompt_message st = (Returned (prompt_markup st), st)
  /\ main_loop_turn st
     = (Returned tt, add_out [Prompt (prompt_markup st)] (set_tty rest st)).
Proof.
  intros Ht Hev Hh. split; [now rewrite get_prompt_message_spec, Hh|].
  rewrite main_loop_turn_eq, Hh. unfold prompt. run. rewrite Ht.
  destruct Hev as [->|[text [-> Hblank]]]; run; [reflexivity|].
  unfold strip. rewrite (lstrip_blank text Hblank). reflexivity.
Qed.

End Dispatch.

(** X5 at work: "Aciton now" is unknown; the report quotes "aciton". *)
Lemma unknown_command_report_witness :
  exists l,
    get_close_matches (lower "Aciton")
      (dict_keys (commands (snd (__init__ blank_state)))) 3 (6 # 10) = inr l
    /\ @_handle_command shipped_agent "Aciton now" (snd (__init__ blank_state))
       = (Returned tt,
          add_out (Log WARNING ("Unknown command: '" ++ lower "Aciton" ++ "'")
                   :: match l with
                      | [] => []
                      | _ => Log INFO "Did you mean?"
                             :: map (fun s => Log INFO ("  - " ++ s)%string) l
                      end
                   ++ [Log INFO "Use 'help' to see all commands."])
                  (snd (__init__ blank_state))).
Proof.
  apply (@unknown_command_report shipped_agent "Aciton now" "Aciton" ["now"]).
  - reflexivity.
  - vm_compute. reflexivity.
Defined.

(** X6 at work: "QUIT now please". *)
Lemma exit_ignores_arguments_witness :
  @_handle_command shipped_agent "QUIT now please" (snd (__init__ blank_state))
  = (Raised (SystemExit 0), add_out [Log INFO "Goodbye!"] (snd (__init__ blank_state))).
Proof.
  apply (@exit_ignores_arguments shipped_agent "QUIT now please" "QUIT" ["now"; "please"]).
  - reflexivity.
  - reflexivity.
  - vm_compute. tauto.
Defined.

(** X7 at work: a line of a tab and two spaces, no agent loaded. *)
Lemma blank_line_is_ignored_witness :
  @main_loop_turn shipped_agent prompt_markup_only
    (set_tty [Line (String (ascii_of_nat 9) "  ")] blank_state)
  = (Returned tt,
     add_out [Prompt "<prompt>ZerePy-CLI</prompt> (no agent) > "]
       (set_tty [] (set_tty [Line (String (ascii_of_nat 9) "  ")] blank_state))).
Proof.
  refine (proj2 (@blank_line_is_ignored shipped_agent prompt_markup_only
                   (Line (String (ascii_of_nat 9) "  ")) []
                   (set_tty [Line (String (ascii_of_nat 9) "  ")] blank_state) _ _ _)).
  - reflexivity.
  - right. eexists. split; reflexivity.
  - reflexivity.
Defined.

(** X8: with the shipped agent, an agent name written between apostrophes
    reaches [load_agent] as one token, whatever characters but the
    apostrophe it holds (spaces, backslashes, double quotes, none at all),
    and the agent of that name is loaded. *)
Theorem quoted_argument_is_one_token (s : string) (st : state) :
  commands st = ZerePyCLI_commands ->
  has_chr (ascii_of_nat 39) s = false ->
  shlex_split ("load-agent '" ++ s ++ "'") = inr ["load-agent"; s]%string
  /\ @_handle_command shipped_agent ("load-agent '" ++ s ++ "'") st
     = (Returned tt,
        add_out [Call M_init [s]; Log INFO (loaded_text ++ s)]
                (set_agent (Some (ZerePyAgent.make s true)) st)).
Proof.
  intros Hc Hs.
  assert (Hsplit : shlex_split ("load-agent '" ++ s ++ "'") = inr ["load-agent"; s]%string).
  { assert (P : forall r, shlex_read ("load-agent '" ++ r) S_space "" false
                          = emit_token "load-agent"
                              (shlex_read r (S_quote (ascii_of_nat 39)) "" false))
      by (intros r; reflexivity).
    unfold shlex_split. rewrite P.
    change (s ++ "'")%string with (s ++ String (ascii_of_nat 39) "")%string.
    rewrite shlex_read_quoted by exact Hs.
    cbn [shlex_read append emit_token]. now rewrite orb_true_r. }
  split; [exact Hsplit|].
  rewrite (handle_command_resolved _ "load-agent" [s]
             (new_Command "load-agent" "Load an agent" ["load-agent agent_name"]
                H_load_agent (Some ["load"])) st Hsplit).
  - cbn [handler new_Command run_handler]. unfold load_agent. cbn [length Nat.ltb Nat.leb nth].
    unfold _load_agent_from_file. run. cbn [new_agent shipped_agent]. run.
    cbn [ZerePyAgent.name]. rewrite set_agent_add_out, add_out_add_out. reflexivity.
  - rewrite Hc. reflexivity.
Qed.

(** X8 at work: [load-agent 'my agent']. *)
Lemma quoted_argument_is_one_token_witness :
  shlex_split ("load-agent '" ++ "my agent" ++ "'") = inr ["load-agent"; "my agent"]%string.
Proof.
  refine (proj1 (quoted_argument_is_one_token "my agent" (snd (__init__ blank_state)) _ _));
    reflexivity.
Defined.

(* ------------------------------------------------------------------ *)
(** ** Arguments, loading, and the default agent *)

(** An agent class whose [loop] is interrupted from the keyboard, as the
    shipped one invites ("Ctrl+C to stop"); the rest is the shipped class. *)
Definition interrupted_agent : AgentImpl :=
  Build_AgentImpl
    (@new_agent shipped_agent)
    (@perform_action shipped_agent)
    (fun self => mk_result [Print "Running agent loop... (Ctrl+C to stop)"] self Interrupted)
    (@_setup_llm_provider shipped_agent)
    (@prompt_llm shipped_agent)
    (fun self connection_name =>
       returns self [Print ("Available actions for connection '" ++ connection_name ++ "'")] tt)
    (fun self connection_name =>
       returns self [Print ("Configuring connection '" ++ connection_name ++ "'")] tt)
    (fun self => returns self [Print "Available connections: example_connection"] tt).

(** A session with agent [demo] loaded and nothing else. *)
Definition demo_session : state :=
  set_agent (Some (ZerePyAgent.make "demo" true)) (snd (__init__ blank_state)).

Section Arguments.
Context {impl : AgentImpl}.

(** X9: with an agent loaded, a command that lacks an argument logs its usage
    line and does nothing else: no method of the agent is entered, nothing is
    constructed, no file is read or written. *)
Theorem missing_argument_prints_usage (input_list : list string) (st : state)
  (self : ZerePyAgent.t) :
  agent st = Some self ->
  length input_list < 3 ->
  agent_action input_list st
    = (Returned tt, add_out [Log INFO "Usage: agent-action <connection> <action>"] st)
  /\ (length input_list < 2 ->
        load_agent input_list st
          = (Returned tt, add_out [Log INFO "Usage: load-agent <agent_name>"] st)
        /\ set_default_agent input_list st
          = (Returned tt, add_out [Log INFO "Usage: set-default-agent <agent_name>"] st)
        /\ ZerePyCLI.list_actions input_list st
          = (Returned tt, add_out [Log INFO "Usage: list-actions <connection>"] st)
        /\ ZerePyCLI.configure_connection input_list st
          = (Returned tt, add_out [Log INFO "Usage: configure-connection <connection>"] st)).
Proof.
  intros Ha H3. split.
  - unfold agent_action, bind, get. rewrite Ha.
    apply Nat.ltb_lt in H3. now rewrite H3.
  - intros H2. apply Nat.ltb_lt in H2.
    unfold load_agent, set_default_agent, ZerePyCLI.list_actions,
      ZerePyCLI.configure_connection, bind, get.
    rewrite Ha, H2. repeat split.
Qed.

(** X10: when the constructor returns an agent, [_load_agent_from_file] makes
    it the agent of the shell, whatever agent was there, and logs its name;
    of two loads in a row the agent of the second remains. *)
Theorem load_agent_replaces_agent (agent_name_arg : string) (a : ZerePyAgent.t)
  (st : state) :
  snd (new_agent agent_name_arg) = inr a ->
  _load_agent_from_file agent_name_arg st
    = (Returned tt,
       add_out (Call M_init [agent_name_arg] :: fst (new_agent agent_name_arg)
                ++ [Log INFO (loaded_text ++ ZerePyAgent.name a)])
               (set_agent (Some a) st))
  /\ (forall n2 a2, snd (new_agent n2) = inr a2 ->
        agent (snd (_load_agent_from_file n2
                      (snd (_load_agent_from_file agent_name_arg st)))) = Some a2).
Proof.
  assert (H : forall n b s, snd (new_agent n) = inr b ->
            _load_agent_from_file n s
            = (Returned tt,
               add_out (Call M_init [n] :: fst (new_agent n)
                        ++ [Log INFO (loaded_text ++ ZerePyAgent.name b)])
                       (set_agent (Some b) s))).
  { intros n b s Hn. unfold _load_agent_from_file. run. rewrite Hn. run.
    rewrite set_agent_add_out, add_out_add_out. reflexivity. }
  intros Ha. split; [now apply H|].
  intros n2 a2 H2. now rewrite (H _ _ _ Ha), (H _ _ _ H2).
Qed.

(** X11: after [set_default_agent] has written a name into a readable and
    writable [agents/general.json], [_load_default_agent] loads the agent of
    that name, exactly as [_load_agent_from_file] does; the name written is
    the second token, the rest of the line is ignored. *)
Theorem default_agent_round_trip (input_list : list string) (st : state)
  (old : option string) :
  general_json st = Document old ->
  write_error st = None ->
  2 <= length input_list ->
  nonempty (nth 1 input_list ""%string) = true ->
  set_default_agent input_list st
    = (Returned tt,
       add_out [Log INFO ("Default agent set to " ++ nth 1 input_list "")]
               (set_general_json (Document (Some (nth 1 input_list ""%string))) st))
  /\ _load_default_agent (snd (set_default_agent input_list st))
    = _load_agent_from_file (nth 1 input_list ""%string)
        (snd (set_default_agent input_list st)).
Proof.
  intros Hj Hw Hlen Hne.
  assert (E : set_default_agent input_list st
    = (Returned tt,
       add_out [Log INFO ("Default agent set to " ++ nth 1 input_list "")]
               (set_general_json (Document (Some (nth 1 input_list ""%string))) st))).
  { unfold set_default_agent.
    assert (L : (length input_list <? 2) = false) by (apply Nat.ltb_ge; exact Hlen).
    rewrite L. unfold read_general_json. run. rewrite Hj. run. rewrite Hw. run.
    reflexivity. }
  split; [exact E|]. rewrite E. cbn [snd].
  unfold _load_default_agent, read_general_json, try_except, bind, get.
  cbn [general_json add_out set_general_json]. unfold ret. rewrite Hne.
  match goal with |- context [_load_agent_from_file ?n ?s] =>
    pose proof (load_agent_from_file_returns n s) as R;
    destruct (_load_agent_from_file n s) as [r s'] end.
  cbn [fst] in R. now rewrite R.
Qed.

(** X12: when [agents/general.json] cannot be read, or cannot be opened for
    writing, [set_default_agent] logs the error and returns; the file and
    the rest of the state are as before. *)
Theorem set_default_agent_failure_keeps_file (input_list : list string) (st : state)
  (e : error) :
  general_json st = Unreadable e
  \/ (exists old, general_json st = Document old /\ write_error st = Some e) ->
  2 <= length input_list ->
  set_default_agent input_list st
  = (Returned tt, add_out [Log ERROR ("Error updating default agent: " ++ msg e)] st).
Proof.
  intros H Hlen. unfold set_default_agent.
  assert (L : (length input_list <? 2) = false) by (apply Nat.ltb_ge; exact Hlen).
  rewrite L. unfold read_general_json. run.
  destruct H as [Hj|[old [Hj Hw]]]; rewrite Hj; run; [reflexivity|].
  rewrite Hw. run. reflexivity.
Qed.

(** X13: [_load_default_agent] always returns.  An unreadable
    [agents/general.json] gives one warning that quotes the error; a document
    without a default agent, or with an empty one, gives the warning "No
    default agent set."; a default agent that cannot be constructed leaves
    the shell without a new agent. *)
Theorem default_agent_load_is_not_fatal (st : state) :
  fst (_load_default_agent st) = Returned tt
  /\ (forall e, general_json st = Unreadable e ->
        _load_default_agent st
        = (Returned tt,
           add_out [Log WARNING ("Failed to load default agent: " ++ msg e)] st))
  /\ (general_json st = Document None \/ general_json st = Document (Some ""%string) ->
        _load_default_agent st
        = (Returned tt, add_out [Log WARNING "No default agent set."] st))
  /\ (forall n e, general_json st = Document (Some n) -> nonempty n = true ->
        snd (new_agent n) = inl e ->
        agent (snd (_load_default_agent st)) = agent st).
Proof.
  split; [|split; [|split]].
  - unfold _load_default_agent, read_general_json. run.
    destruct (general_json st) as [e|[n|]]; run; try reflexivity.
    destruct (nonempty n); run; [|reflexivity].
    match goal with |- context [_load_agent_from_file n ?s] =>
      pose proof (load_agent_from_file_returns n s) as R;
      destruct (_load_agent_from_file n s) as [r s'] end.
    cbn [fst] in R. now rewrite R.
  - intros e Hj. unfold _load_default_agent, read_general_json. run. rewrite Hj. run.
    reflexivity.
  - intros [Hj|Hj]; unfold _load_default_agent, read_general_json; run; rewrite Hj; run;
      reflexivity.
  - intros n e Hj Hne Hn. unfold _load_default_agent, read_general_json. run.
    rewrite Hj. run. rewrite Hne.
    unfold _load_agent_from_file. run. rewrite Hn. run. reflexivity.
Qed.

(** X14: when the loop of the agent is interrupted from the keyboard,
    [agent_loop] logs "Stopped." and returns; when the loop raises an
    [Exception], [agent_loop] lets it pass, to be logged by
    [_handle_command]. *)
Theorem agent_loop_interrupt (input_list : list string) (st : state)
  (self : ZerePyAgent.t) :
  agent st = Some self ->
  (m_ret (loop self) = Interrupted ->
     agent_loop input_list st
     = (Returned tt,
        add_out (Call M_loop [] :: m_out (loop self) ++ [Log INFO "Stopped."])
                (set_agent (Some (m_self (loop self))) st)))
  /\ (forall e, m_ret (loop self) = Failed e ->
        agent_loop input_list st
        = (Raised (Exception e),
           add_out (Call M_loop [] :: m_out (loop self))
                   (set_agent (Some (m_self (loop self))) st)))
  /\ (m_ret (loop self) = Done tt ->
        agent_loop input_list st
        = (Returned tt,
           add_out (Call M_loop [] :: m_out (loop self))
                   (set_agent (Some (m_self (loop self))) st))).
Proof.
  intros Ha. unfold agent_loop. run. rewrite Ha. run. rewrite Ha.
  split; [|split]; [intros E | intros e E | intros E]; rewrite E; run;
    rewrite ?add_out_add_out; reflexivity.
Qed.

End Arguments.

(** X9 at work: [agent-action conn] with agent [demo] loaded. *)
Lemma missing_argument_prints_usage_witness :
  @agent_action shipped_agent ["agent-action"; "conn"] demo_session
  = (Returned tt,
     add_out [Log INFO "Usage: agent-action <connection> <action>"] demo_session).
Proof.
  refine (proj1 (@missing_argument_prints_usage shipped_agent ["agent-action"; "conn"]
                   demo_session (ZerePyAgent.make "demo" true) _ _)).
  - reflexivity.
  - simpl. lia.
Defined.

(** X10 at work: [foo] is loaded over [demo]. *)
Lemma load_agent_replaces_agent_witness :
  agent (snd (@_load_agent_from_file shipped_agent "foo" demo_session))
  = Some (ZerePyAgent.make "foo" true).
Proof.
  rewrite (proj1 (@load_agent_replaces_agent shipped_agent "foo"
                    (ZerePyAgent.make "foo" true) demo_session eq_refl)).
  reflexivity.
Defined.

(** X11 at work: [default demo extra] on an empty document. *)
Lemma default_agent_round_trip_witness :
  general_json (snd (@set_default_agent ["default"; "demo"; "extra"] blank_state))
  = Document (Some "demo"%string).
Proof.
  rewrite (proj1 (default_agent_round_trip (impl := shipped_agent)
                    ["default"; "demo"; "extra"] blank_state None
                    eq_refl eq_refl ltac:(simpl; lia) eq_refl)).
  reflexivity.
Defined.

(** X12 at work: the file is missing. *)
Lemma set_default_agent_failure_keeps_file_witness :
  @set_default_agent ["default"; "demo"]
    (set_general_json (Unreadable (mk_error "FileNotFoundError" "no such file")) blank_state)
  = (Returned tt,
     add_out [Log ERROR "Error updating default agent: no such file"]
       (set_general_json (Unreadable (mk_error "FileNotFoundError" "no such file"))
          blank_state)).
Proof.
  apply (set_default_agent_failure_keeps_file ["default"; "demo"]
           (set_general_json (Unreadable (mk_error "FileNotFoundError" "no such file"))
              blank_state)
           (mk_error "FileNotFoundError" "no such file")).
  - left. reflexivity.
  - simpl. lia.
Defined.

(** X14 at work: the loop of [demo] is interrupted. *)
Lemma agent_loop_interrupt_witness :
  @agent_loop interrupted_agent ["loop"] demo_session
  = (Returned tt,
     add_out [Call M_loop []; Print "Running agent loop... (Ctrl+C to stop)";
              Log INFO "Stopped."] demo_session).
Proof.
  rewrite (proj1 (@agent_loop_interrupt interrupted_agent ["loop"] demo_session
                    (ZerePyAgent.make "demo" true) eq_refl) eq_refl).
  reflexivity.
Defined.

(* ------------------------------------------------------------------ *)
(** ** What a command leaves alone *)

(** A statement leaves the part [f] of the state as it found it. *)
Definition keeps {B A : Type} (f : state -> B) (m : M A) : Prop :=
  forall st, f (snd (m st)) = f st.

Section Frame.
Context {impl : AgentImpl} {toolkit : PromptToolkit} {B : Type} (f : state -> B).
Variable calm : forall A : Type, (ZerePyAgent.t -> method_result A) -> Prop.
Hypothesis f_out : forall o st, f (add_out o st) = f st.
Hypothesis f_tty : forall k st, f (set_tty k st) = f st.
Hypothesis f_agent : forall a st, f (set_agent a st) = f st.
Hypothesis f_json : forall j st, f (set_general_json j st) = f st.
Hypothesis f_call : forall A m attr args (g : ZerePyAgent.t -> method_result A),
  calm A g -> keeps f (call m attr args g).
Hypothesis calm_perform_action : forall c a p,
  calm string (fun self => perform_action self c a p).
Hypothesis calm_loop : calm unit loop.
Hypothesis calm_setup : calm unit _setup_llm_provider.
Hypothesis calm_prompt_llm : forall m, calm string (fun self => prompt_llm self m).
Hypothesis calm_list_actions : forall c, calm unit (fun self => cm_list_actions self c).
Hypothesis calm_configure : forall c,
  calm unit (fun self => cm_configure_connection self c).
Hypothesis calm_list_connections : calm unit cm_list_connections.

Lemma keeps_ret {A : Type} (a : A) : keeps f (ret a).
Proof. intros st. reflexivity. Qed.

Lemma keeps_get {A : Type} (g : state -> A) : keeps f (get g).
Proof. intros st. reflexivity. Qed.

Lemma keeps_raise {A : Type} (x : exn) : keeps f (@raise A x).
Proof. intros st. reflexivity. Qed.

Lemma keeps_emit (o : list output) : keeps f (emit o).
Proof. intros st. apply f_out. Qed.

Lemma keeps_bind {A C : Type} (m : M A) (k : A -> M C) :
  keeps f m -> (forall a, keeps f (k a)) -> keeps f (bind m k).
Proof.
  intros Hm Hk st. unfold bind. specialize (Hm st).
  destruct (m st) as [[a|x] st1]; cbn [snd] in *; [|exact Hm].
  now rewrite Hk.
Qed.

Lemma keeps_try_except {A : Type} (body : M A) (handlers : exn -> option (M A)) :
  keeps f body ->
  (forall x clause, handlers x = Some clause -> keeps f clause) ->
  keeps f (try_except body handlers).
Proof.
  intros Hb Hh st. unfold try_except. specialize (Hb st).
  destruct (body st) as [[a|x] st1]; cbn [snd] in *; [exact Hb|].
  destruct (handlers x) as [clause|] eqn:E; [|exact Hb].
  now rewrite (Hh x clause E).
Qed.

Lemma keeps_for_each {A : Type} (l : list A) (body : A -> M unit) :
  (forall x, keeps f (body x)) -> keeps f (for_each l body).
Proof.
  intros H. induction l as [|x r IH]; cbn [for_each];
    [apply keeps_ret | apply keeps_bind; auto].
Qed.

Lemma keeps_lift {A : Type} (r : error + A) : keeps f (lift r).
Proof. destruct r; [apply keeps_raise | apply keeps_ret]. Qed.

Lemma keeps_deliver (ev : option key_event) (rest : list key_event) (text : string) :
  keeps f (deliver ev rest text).
Proof.
  intros st. unfold deliver. run.
  destruct ev as [[s| |]|]; run; now rewrite f_out, f_tty.
Qed.

Lemma keeps_except_Exception {A : Type} (clause : error -> M A) (x : exn) (c : M A) :
  (forall e, keeps f (clause e)) -> except_Exception clause x = Some c -> keeps f c.
Proof.
  intros H. destruct x; cbn; intros E; try discriminate. injection E as <-. apply H.
Qed.

Lemma keeps_except_KeyboardInterrupt {A : Type} (clause : M A) (x : exn) (c : M A) :
  keeps f clause -> except_KeyboardInterrupt clause x = Some c -> keeps f c.
Proof.
  intros H. destruct x; cbn; intros E; try discriminate. now injection E as <-.
Qed.

(** One step of the proof that a statement keeps [f], by its shape. *)
Ltac keeps_step :=
  match goal with
  | |- keeps _ (bind _ _) => apply keeps_bind; [|intros ?; cbv beta]
  | |- keeps _ (try_except _ _) => apply keeps_try_except; [|intros ? ? ?]
  | |- keeps _ (ret _) => apply keeps_ret
  | |- keeps _ (get _) => apply keeps_get
  | |- keeps _ (raise _) => apply keeps_raise
  | |- keeps _ (log _ _) => apply keeps_emit
  | |- keeps _ (emit _) => apply keeps_emit
  | |- keeps _ print_h_bar => apply keeps_emit
  | |- keeps _ (lift _) => apply keeps_lift
  | |- keeps _ (deliver _ _ _) => apply keeps_deliver
  | |- keeps _ (call _ _ _ _) =>
      apply f_call;
      first [ apply calm_perform_action | apply calm_loop | apply calm_setup
            | apply calm_prompt_llm | apply calm_list_actions | apply calm_configure
            | apply calm_list_connections ]
  | |- keeps _ (for_each _ _) => apply keeps_for_each; intros ?; cbv beta
  | H : except_Exception _ _ = Some _ |- keeps _ _ =>
      eapply keeps_except_Exception; [|exact H]; intros ?; cbv beta
  | H : except_KeyboardInterrupt _ _ = Some _ |- keeps _ _ =>
      eapply keeps_except_KeyboardInterrupt; [|exact H]
  | |- keeps _ (match ?x with _ => _ end) => destruct x
  end.

Lemma keeps_chat_loop (keys : list key_event) : keeps f (chat_loop keys).
Proof.
  induction keys as [|ev rest IH]; cbn [chat_loop].
  - unfold chat_turn, agent_name. repeat keeps_step.
  - apply keeps_bind; [unfold chat_turn, agent_name; repeat keeps_step|].
    intros [|]; [exact IH | apply keeps_ret].
Qed.

Lemma keeps_print_welcome_message : keeps f _print_welcome_message.
Proof. unfold _print_welcome_message. repeat keeps_step. Qed.

Lemma keeps_prompt (text : string) : keeps f (prompt text).
Proof. unfold prompt. repeat keeps_step. Qed.

(** Every handler but [load_agent] and [set_default_agent]. *)
Lemma keeps_other_handlers (h : handler_id) (input_list : list string) :
  h <> H_load_agent -> h <> H_set_default_agent ->
  keeps f (run_handler h input_list).
Proof.
  intros Hl Hd. destruct h; try congruence; cbn [run_handler].
  - unfold help. repeat keeps_step.
  - unfold clear_screen. repeat keeps_step. apply keeps_print_welcome_message.
  - unfold agent_action. repeat keeps_step.
  - unfold agent_loop. repeat keeps_step.
  - unfold list_agents. repeat keeps_step.
  - unfold create_agent. repeat keeps_step.
  - unfold chat_session, agent_name.
    repeat (apply keeps_chat_loop || keeps_step).
  - unfold ZerePyCLI.list_actions. repeat keeps_step.
  - unfold ZerePyCLI.configure_connection. repeat keeps_step.
  - unfold ZerePyCLI.list_connections. repeat keeps_step.
  - unfold exit. repeat keeps_step.
Qed.

Lemma keeps_load_agent_from_file (n : string) : keeps f (_load_agent_from_file n).
Proof.
  unfold _load_agent_from_file, construct, agent_name. repeat keeps_step.
  intros st. apply f_agent.
Qed.

Lemma keeps_load_agent (input_list : list string) : keeps f (load_agent input_list).
Proof.
  unfold load_agent. repeat keeps_step. apply keeps_load_agent_from_file.
Qed.

Lemma keeps_set_default_agent (input_list : list string) :
  keeps f (set_default_agent input_list).
Proof.
  unfold set_default_agent, read_general_json. repeat keeps_step.
  intros st. apply f_json.
Qed.

Lemma keeps_handle_unknown_command (command : string) :
  keeps f (_handle_unknown_command command).
Proof.
  unfold _handle_unknown_command, _get_command_suggestions. repeat keeps_step.
Qed.

Lemma keeps_handle_command (line : string) : keeps f (_handle_command line).
Proof.
  unfold _handle_command. repeat keeps_step.
  - destruct (handler c) eqn:E;
      try (apply keeps_other_handlers; congruence).
    + apply keeps_load_agent.
    + apply keeps_set_default_agent.
  - apply keeps_handle_unknown_command.
Qed.

Lemma keeps_main_loop_turn : keeps f main_loop_turn.
Proof.
  unfold main_loop_turn, _get_prompt_message. repeat keeps_step.
  - apply keeps_prompt.
  - apply keeps_handle_command.
  - unfold main_loop_except in *.
    destruct x as [e| |code]; try discriminate.
    + destruct (is_EOFError e); [|discriminate].
      match goal with H : Some _ = Some _ |- _ => injection H as <- end.
      unfold exit. repeat keeps_step.
    + match goal with H : Some _ = Some _ |- _ => injection H as <- end.
      apply keeps_ret.
Qed.

Lemma keeps_repl (fuel : nat) (st : state) (x : exn) (st' : state) :
  repl fuel st = Some (x, st') -> f st' = f st.
Proof.
  revert st. induction fuel as [|fuel IH]; intros st; cbn [repl]; [discriminate|].
  pose proof (keeps_main_loop_turn st) as K.
  destruct (main_loop_turn st) as [[u|y] st1]; cbn [snd] in K.
  - intros H. rewrite (IH _ H). exact K.
  - intros [= <- <-]. exact K.
Qed.

End Frame.

Lemma keeps_call_frame {impl : AgentImpl} {B : Type} (f : state -> B) :
  (forall o st, f (add_out o st) = f st) ->
  (forall a st, f (set_agent a st) = f st) ->
  forall A m attr args (g : ZerePyAgent.t -> method_result A),
    True -> keeps f (call m attr args g).
Proof.
  intros f_out f_agent A m attr args g _ st. unfold call.
  destruct (agent st); [destruct (m_ret (g t))|]; cbn [snd];
    now rewrite ?f_out, ?f_agent.
Qed.

Lemma keeps_load_default_agent {impl : AgentImpl} {B : Type} (f : state -> B) :
  (forall o st, f (add_out o st) = f st) ->
  (forall a st, f (set_agent a st) = f st) ->
  keeps f _load_default_agent.
Proof.
  intros f_out f_agent. unfold _load_default_agent, read_general_json.
  apply keeps_try_except.
  - apply keeps_bind; [apply keeps_bind; [apply keeps_get|]|].
    + intros [e|d]; [apply keeps_raise | apply keeps_ret].
    + intros [n|]; [destruct (nonempty n)|]; try (intros s; apply f_out).
      now apply keeps_load_agent_from_file.
  - intros y clause H. destruct y; cbn in H; try discriminate.
    injection H as <-. intros s. apply f_out.
Qed.

Lemma keeps_main_loop {impl : AgentImpl} {toolkit : PromptToolkit} {B : Type}
  (f : state -> B) :
  (forall o st, f (add_out o st) = f st) ->
  (forall k st, f (set_tty k st) = f st) ->
  (forall a st, f (set_agent a st) = f st) ->
  (forall j st, f (set_general_json j st) = f st) ->
  forall st x st', main_loop st = Some (x, st') -> f st' = f st.
Proof.
  intros f_out f_tty f_agent f_json st x st'. unfold main_loop.
  assert (S : keeps f (_print_welcome_message ;; _load_default_agent)).
  { apply keeps_bind; [now apply keeps_print_welcome_message|].
    intros _. now apply keeps_load_default_agent. }
  specialize (S st).
  destruct ((_print_welcome_message ;; _load_default_agent) st) as [[u|y] st1];
    cbn [snd] in S.
  - intros H. rewrite <- S.
    apply (keeps_repl f (fun _ _ => True)) in H; auto using keeps_call_frame.
  - intros [= <- <-]. exact S.
Qed.

(** X15: the dictionary of commands is never changed once it is built: not
    by a line that [_handle_command] handles, not by a turn of the main
    loop, however they end.  [main_loop] ends with the dictionary it started
    with, and [main], when the configuration directory can be made, with
    that of [_initialize_commands]. *)
Theorem registry_is_immutable {impl : AgentImpl} {toolkit : PromptToolkit} :
  (forall line st, commands (snd (_handle_command line st)) = commands st)
  /\ (forall st, commands (snd (main_loop_turn st)) = commands st)
  /\ (forall st, exists x st',
        main_loop st = Some (x, st') /\ commands st' = commands st)
  /\ (forall st, config_dir_error st = None ->
        exists x st', main st = Some (x, st') /\ commands st' = ZerePyCLI_commands).
Proof.
  assert (L : forall st, exists x st',
            main_loop st = Some (x, st') /\ commands st' = commands st).
  { intros st. destruct (main_loop_ends st) as [last [x [st' [H _]]]].
    exists x, st'. split; [exact H|].
    now apply (keeps_main_loop commands) in H. }
  split; [|split; [|split]].
  - intros line. apply (keeps_handle_command commands (fun _ _ => True));
      auto using keeps_call_frame.
  - apply (keeps_main_loop_turn commands (fun _ _ => True));
      auto using keeps_call_frame.
  - exact L.
  - intros st Hc. rewrite main_spec, Hc.
    destruct (session_error st) as [e|].
    + eexists. eexists. split; reflexivity.
    + destruct (L (set_commands ZerePyCLI_commands (set_agent None st)))
        as [x [st' [H1 H2]]].
      exists x, st'. split; [exact H1 | exact H2].
Qed.

(** X16: no handler but [set_default_agent] changes [agents/general.json],
    whatever the agent class does and whatever the arguments are. *)
Theorem only_set_default_agent_writes {impl : AgentImpl} (h : handler_id)
  (input_list : list string) (st : state) :
  h <> H_set_default_agent ->
  general_json (snd (run_handler h input_list st)) = general_json st.
Proof.
  intros Hd.
  destruct h; try congruence;
    try (apply (keeps_other_handlers general_json (fun _ _ => True));
         auto using keeps_call_frame; congruence).
  cbn [run_handler]. apply (keeps_load_agent general_json); reflexivity.
Qed.

(** X16 at work: [load-agent foo]. *)
Lemma only_set_default_agent_writes_witness :
  general_json (snd (@run_handler shipped_agent H_load_agent ["load-agent"; "foo"]
                       demo_session)) = general_json demo_session.
Proof.
  apply (@only_set_default_agent_writes shipped_agent H_load_agent
           ["load-agent"; "foo"] demo_session).
  discriminate.
Defined.

(** X17: with the shipped agent, no handler but [load_agent] changes the
    agent of the shell: the methods of [agent.py] leave their object as it
    is, and no other command assigns [self.agent]. *)
Theorem only_load_agent_changes_agent (h : handler_id) (input_list : list string)
  (st : state) :
  h <> H_load_agent ->
  agent (snd (@run_handler shipped_agent h input_list st)) = agent st.
Proof.
  intros Hl.
  assert (C : forall A m attr args (g : ZerePyAgent.t -> method_result A),
            (forall self, m_self (g self) = self) ->
            keeps agent (call m attr args g)).
  { intros A m attr args g Hg s. unfold call.
    destruct (agent s) as [self|] eqn:E; [|exact E].
    destruct (m_ret (g self)); cbn [snd agent add_out set_agent];
      now rewrite Hg. }
  destruct h; try congruence;
    try (apply (keeps_other_handlers (impl := shipped_agent) agent
                  (fun A g => forall self, m_self (g self) = self));
         try reflexivity; auto; congruence).
  cbn [run_handler]. apply (keeps_set_default_agent agent); reflexivity.
Qed.

(** X17 at work: a chat of one message and "exit". *)
Lemma only_load_agent_changes_agent_witness :
  agent (snd (@run_handler shipped_agent H_chat_session ["chat"]
                (set_tty [Line "hello"; Line "exit"] demo_session)))
  = agent (set_tty [Line "hello"; Line "exit"] demo_session).
Proof.
  apply (only_load_agent_changes_agent H_chat_session ["chat"]
           (set_tty [Line "hello"; Line "exit"] demo_session)).
  discriminate.
Defined.

(* ------------------------------------------------------------------ *)
(** ** The chat *)

(** What the chat shows for the messages [msgs] with the agent named [n] of
    [agent.py]: per message the prompt, the call of [prompt_llm], the answer
    and a separator. *)
Definition chat_answers (n : string) (msgs : list string) : list output :=
  flat_map (fun m => [Prompt (newline ++ "You: "); Call M_prompt_llm [m];
                      Log INFO (n ++ ": " ++ "LLM response to: " ++ m);
                      Print (repeat_chr "-"%char 60)]) msgs.

(** X18: with the shipped agent, the chat answers every message up to the
    first one that reads "exit" (in any case, white space around it
    ignored) or the first interrupt, one [prompt_llm] per message in the
    order typed; there it shows one more prompt and returns, leaving the
    rest of what was typed to the prompt of the main loop. *)
Theorem chat_answers_each_message (msgs : list string) (last : key_event)
  (rest : list key_event) (self : ZerePyAgent.t) (st : state) :
  agent st = Some self ->
  Forall (fun m => String.eqb (lower (strip m)) "exit" = false) msgs ->
  last = CtrlC \/ (exists m, last = Line m /\ String.eqb (lower (strip m)) "exit" = true) ->
  @chat_loop shipped_agent (map Line msgs ++ last :: rest) st
  = (Returned tt,
     add_out (chat_answers (ZerePyAgent.name self) msgs ++ [Prompt (newline ++ "You: ")])
             (set_tty rest st)).
Proof.
  intros Ha Hm Hl. revert st Ha.
  induction Hm as [|m msgs Hx Hm IH]; intros st Ha.
  - cbn [map app chat_loop chat_answers flat_map].
    destruct Hl as [->|[m [-> Hx]]]; unfold chat_turn; run; [reflexivity|].
    rewrite Hx. reflexivity.
  - cbn [map app chat_loop chat_answers flat_map].
    unfold chat_turn at 1. run. rewrite Hx. run. cbn [agent add_out set_tty].
    rewrite Ha. cbn [prompt_llm shipped_agent]. unfold returns. run.
    cbn [agent add_out set_tty set_agent].
    rewrite IH by reflexivity.
    rewrite set_agent_add_out, set_agent_set_tty, <- Ha, set_agent_same.
    rewrite !set_tty_add_out, set_tty_set_tty, !add_out_add_out.
    reflexivity.
Qed.

(** X18 at work: two messages, then " EXIT ", with one more line typed. *)
Lemma chat_answers_each_message_witness :
  @chat_loop shipped_agent
    (map Line ["hello"; "exit now"] ++ Line " EXIT " :: [Line "help"]) demo_session
  = (Returned tt,
     add_out (chat_answers "demo" ["hello"; "exit now"] ++ [Prompt (newline ++ "You: ")])
             (set_tty [Line "help"] demo_session)).
Proof.
  apply (chat_answers_each_message ["hello"; "exit now"] (Line " EXIT ") [Line "help"]
           (ZerePyAgent.make "demo" true) demo_session).
  - reflexivity.
  - repeat constructor.
  - right. exists " EXIT ". split; reflexivity.
Defined.

(** X19: end of input is an exit at the prompt of the main loop only.  In
    the chat, where only [KeyboardInterrupt] is caught, the [EOFError]
    leaves [chat_session] and is logged by [_handle_command] as an error
    with an empty message; the shell goes on.  At the prompt of the main
    loop, once [HTML] has taken the prompt text, the same event gets the
    farewell and [SystemExit(0)]. *)
Theorem end_of_input_in_chat {impl : AgentImpl} {toolkit : PromptToolkit}
  (rest : list key_event) (self : ZerePyAgent.t) (st : state) :
  commands st = ZerePyCLI_commands ->
  agent st = Some self ->
  ZerePyAgent.is_llm_set self = true ->
  tty st = CtrlD :: rest \/ (tty st = [] /\ rest = []) ->
  _handle_command "chat" st
    = (Returned tt,
       add_out [Print (repeat_chr "-"%char 60);
                Log INFO ("Chatting with " ++ ZerePyAgent.name self);
                Print (repeat_chr "-"%char 60);
                Prompt (newline ++ "You: ");
                Log ERROR "Error: "]
               (set_tty rest st))
  /\ (HTML (prompt_markup st) = None ->
      main_loop_turn st
      = (Raised (SystemExit 0),
         add_out [Prompt (prompt_markup st); Log INFO "Goodbye!"] (set_tty rest st))).
Proof.
  intros Hc Ha Hf Ht. split.
  - rewrite (handle_command_resolved "chat" "chat" []
               (new_Command "chat" "Chat with agent" [] H_chat_session (Some ["talk"])) st);
      [|reflexivity | rewrite Hc; reflexivity].
    cbn [handler new_Command run_handler]. unfold chat_session. run.
    rewrite Ha, Hf. cbn [negb]. run. rewrite Ha. run.
    destruct Ht as [Ht|[Ht ->]]; rewrite Ht; cbn [chat_loop]; unfold chat_turn; run;
      rewrite !set_tty_add_out, !add_out_add_out; reflexivity.
  - intros Hh. rewrite main_loop_turn_eq, Hh. unfold prompt. run.
    destruct Ht as [Ht|[Ht ->]]; rewrite Ht; run;
      change (main_loop_except (Exception EOFError)) with (Some (exit []));
      unfold exit; run; rewrite add_out_add_out; reflexivity.
Qed.

(** X19 at work: the terminal is closed while [demo] is loaded. *)
Lemma end_of_input_in_chat_witness :
  fst (@_handle_command shipped_agent "chat" chatting_session) = Returned tt
  /\ fst (@main_loop_turn shipped_agent prompt_markup_only chatting_session)
     = Raised (SystemExit 0).
Proof.
  destruct (@end_of_input_in_chat shipped_agent prompt_markup_only []
              (ZerePyAgent.make "demo" true) chatting_session) as [H1 H2].
  - reflexivity.
  - reflexivity.
  - reflexivity.
  - left. reflexivity.
  - rewrite H1, (H2 eq_refl). split; reflexivity.
Defined.

(* ------------------------------------------------------------------ *)
(** ** Arguments on their way to the agent *)

(** X20: with the shipped agent, [agent-action] passes its second token as
    the connection, its third as the action and all further tokens as the
    parameters, and logs what [perform_action] returns: the action, the
    connection and the parameters as Python writes a list of strings. *)
Theorem agent_action_routes (input_list : list string) (self : ZerePyAgent.t)
  (st : state) :
  agent st = Some self ->
  3 <= length input_list ->
  @agent_action shipped_agent input_list st
  = (Returned tt,
     add_out [Call M_perform_action (skipn 1 input_list);
              Log INFO ("Result: Performed action '" ++ nth 2 input_list ""
                        ++ "' on connection '" ++ nth 1 input_list ""
                        ++ "' with params " ++ repr_list (skipn 3 input_list))]
             st).
Proof.
  intros Ha Hn. unfold agent_action. run. rewrite Ha.
  destruct (Nat.ltb_spec (length input_list) 3) as [H|_]; [lia|].
  cbn [perform_action shipped_agent]. unfold returns. run.
  rewrite Ha, add_out_add_out, <- Ha, set_agent_same. reflexivity.
Qed.

(** X20 at work: [run twitter post hi "it's me"]. *)
Lemma agent_action_routes_witness :
  @agent_action shipped_agent ["run"; "twitter"; "post"; "hi"; "it's me"] demo_session
  = (Returned tt,
     add_out [Call M_perform_action ["twitter"; "post"; "hi"; "it's me"];
              Log INFO ("Result: Performed action 'post' on connection 'twitter'"
                        ++ " with params ['hi', " ++ String (ascii_of_nat 34) "it's me"
                        ++ String (ascii_of_nat 34) "]")]
             demo_session).
Proof.
  apply (agent_action_routes ["run"; "twitter"; "post"; "hi"; "it's me"]
           (ZerePyAgent.make "demo" true) demo_session).
  - reflexivity.
  - cbn [length]. lia.
Defined.

(* ------------------------------------------------------------------ *)
(** ** Quotes that are not closed *)

Lemma shlex_read_unclosed (s : string) :
  has_chr (ascii_of_nat 39) s = false ->
  forall tok quoted,
    shlex_read s (S_quote (ascii_of_nat 39)) tok quoted
    = inl (ValueError "No closing quotation").
Proof.
  induction s as [|c s' IH]; intros Hs tok quoted; [reflexivity|].
  cbn [has_chr] in Hs. apply orb_false_elim in Hs as [Hc Hs'].
  cbn [shlex_read]. rewrite Hc.
  replace (shlex_escape c && shlex_escapedquote (ascii_of_nat 39)) with false
    by (symmetry; apply andb_false_r).
  now apply IH.
Qed.

Lemma shlex_read_word_then (w : string) :
  all_chars plainb w = true ->
  forall r tok quoted, nonempty tok = true ->
    shlex_read (w ++ String " "%char r) S_word tok quoted
    = emit_token (tok ++ w) (shlex_read r S_space "" false).
Proof.
  induction w as [|c w' IH]; intros Hw r tok quoted Htok.
  - cbn [append shlex_read]. change (shlex_whitespace " "%char) with true.
    cbv iota. rewrite Htok, append_empty_r. reflexivity.
  - simpl in Hw. apply andb_prop in Hw as [Hc Hr].
    unfold plainb in Hc. apply andb_prop in Hc as [Hc Hq]. apply andb_prop in Hc as [Hws Hesc].
    apply negb_true_iff in Hws, Hesc, Hq.
    cbn [append shlex_read]. rewrite Hws, Hq, Hesc.
    rewrite IH by (auto using nonempty_snoc). now rewrite append_snoc.
Qed.

(** X21: a line of one word and an apostrophe that is never closed is not
    run, whatever the word: the tokenizer raises "No closing quotation",
    [_handle_command] logs it and returns, and nothing else happens.  So
    [exit 'now] does not leave the shell. *)
Theorem unclosed_quote_is_reported {impl : AgentImpl} (w s : string) (st : state) :
  plain_wordb w = true ->
  has_chr (ascii_of_nat 39) s = false ->
  shlex_split (w ++ " '" ++ s) = inl (ValueError "No closing quotation")
  /\ _handle_command (w ++ " '" ++ s) st
     = (Returned tt, add_out [Log ERROR "Error: No closing quotation"] st).
Proof.
  intros Hw Hs.
  assert (E : shlex_split (w ++ " '" ++ s) = inl (ValueError "No closing quotation")).
  { unfold shlex_split, plain_wordb in *. destruct w as [|c r]; [discriminate|].
    cbn [nonempty andb all_chars] in Hw. apply andb_prop in Hw as [Hc Hr].
    unfold plainb in Hc. apply andb_prop in Hc as [Hc Hq].
    apply andb_prop in Hc as [Hws Hesc]. apply negb_true_iff in Hws, Hesc, Hq.
    cbn [append shlex_read]. rewrite Hws, Hq, Hesc.
    change (" '" ++ s)%string with (String " "%char (String (ascii_of_nat 39) s)).
    rewrite shlex_read_word_then by (auto; reflexivity).
    cbn [shlex_read]. change (shlex_whitespace (ascii_of_nat 39)) with false.
    change (shlex_escape (ascii_of_nat 39)) with false.
    change (shlex_quote (ascii_of_nat 39)) with true. cbv iota.
    now rewrite shlex_read_unclosed. }
  split; [exact E|].
  unfold _handle_command. run. rewrite E. reflexivity.
Qed.

(** X21 at work: [exit 'now]. *)
Lemma unclosed_quote_is_reported_witness :
  @_handle_command shipped_agent ("exit" ++ " '" ++ "now") (snd (__init__ blank_state))
  = (Returned tt,
     add_out [Log ERROR "Error: No closing quotation"] (snd (__init__ blank_state))).
Proof.
  apply (@unclosed_quote_is_reported shipped_agent "exit" "now" (snd (__init__ blank_state)));
    reflexivity.
Defined.

(* ------------------------------------------------------------------ *)
(** ** Which commands can fail *)

Lemma for_each_returns {A : Type} (body : A -> M unit) :
  (forall x st, fst (body x st) = Returned tt) ->
  forall l st, fst (for_each l body st) = Returned tt.
Proof.
  intros Hb. induction l as [|x r IH]; intros st; cbn [for_each]; [reflexivity|].
  unfold bind. specialize (Hb x st).
  destruct (body x st) as [[u|y] st']; cbn [fst] in Hb; [apply IH | discriminate].
Qed.

Lemma chat_turn_outcome (ev : option key_event) (rest : list key_event) (st : state)
  (self : ZerePyAgent.t) :
  agent st = Some self ->
  (exists b, fst (@chat_turn shipped_agent ev rest st) = Returned b)
  \/ fst (@chat_turn shipped_agent ev rest st) = Raised (Exception EOFError).
Proof.
  intros Ha. unfold chat_turn.
  destruct ev as [[message| |]|]; run.
  - destruct (String.eqb (lower (strip message)) "exit"); run.
    + left. now exists false.
    + cbn [agent add_out set_tty]. rewrite Ha. cbn [prompt_llm shipped_agent].
      unfold returns. run. left. now exists true.
  - left. now exists false.
  - now right.
  - now right.
Qed.

Lemma chat_loop_outcome (keys : list key_event) (st : state) (self : ZerePyAgent.t) :
  agent st = Some self ->
  fst (@chat_loop shipped_agent keys st) = Returned tt
  \/ fst (@chat_loop shipped_agent keys st) = Raised (Exception EOFError).
Proof.
  revert st. induction keys as [|ev rest IH]; intros st Ha; cbn [chat_loop]; unfold bind.
  - pose proof (chat_turn_outcome None [] st self Ha) as H.
    destruct (chat_turn None [] st) as [[b'|x] st']; cbn [fst] in H |- *.
    + now left.
    + destruct H as [[b H]|H]; [discriminate | injection H as ->; now right].
  - pose proof (chat_turn_quiet (Some ev) rest st self Ha) as [Q _].
    pose proof (chat_turn_outcome (Some ev) rest st self Ha) as H.
    destruct (chat_turn (Some ev) rest st) as [[b'|x] st']; cbn [fst snd] in H, Q |- *.
    + destruct b'; [|now left]. apply IH. now rewrite Q.
    + destruct H as [[b H]|H]; [discriminate | injection H as ->; now right].
Qed.

(** X22: with the shipped agent, one handler raises an [Exception], in one
    case: [chat_session], when the terminal delivers end of input.  [exit]
    raises [SystemExit(0)]; every other handler returns, whatever its
    arguments, the state of the files and the agent loaded. *)
Theorem only_chat_and_exit_raise (h : handler_id) (input_list : list string)
  (st : state) :
  match h with
  | H_exit =>
      fst (@run_handler shipped_agent h input_list st) = Raised (SystemExit 0)
  | H_chat_session =>
      fst (@run_handler shipped_agent h input_list st) = Returned tt
      \/ (agent st <> None
          /\ fst (@run_handler shipped_agent h input_list st) = Raised (Exception EOFError))
  | _ => fst (@run_handler shipped_agent h input_list st) = Returned tt
  end.
Proof.
  destruct h; cbn [run_handler].
  - unfold help. unfold bind at 1. unfold get. cbv beta iota.
    destruct (1 <? length input_list); [|reflexivity].
    destruct (dict_get (nth 1 input_list "") (commands st)); [|reflexivity].
    unfold bind. unfold log at 1. unfold emit at 1. cbv beta iota.
    apply for_each_returns. reflexivity.
  - reflexivity.
  - unfold agent_action. run. destruct (agent st) eqn:Ha; [|reflexivity].
    destruct (length input_list <? 3); [reflexivity|]. rewrite Ha. reflexivity.
  - unfold agent_loop. run. destruct (agent st) eqn:Ha; [|reflexivity].
    rewrite Ha. reflexivity.
  - unfold list_agents. run. apply for_each_returns.
    intros x s. now destruct (String.eqb x "general").
  - unfold load_agent. destruct (length input_list <? 2); [reflexivity|].
    apply load_agent_from_file_returns.
  - reflexivity.
  - unfold set_default_agent. destruct (length input_list <? 2); [reflexivity|].
    unfold read_general_json. run.
    destruct (general_json st); [reflexivity|]. destruct (write_error st); reflexivity.
  - set (K := (print_h_bar ;; n <- agent_name ;;
               log INFO ("Chatting with " ++ n) ;; print_h_bar ;;
               keys <- get tty ;; @chat_loop shipped_agent keys)).
    destruct (agent st) as [self|] eqn:Ha;
      [|left; unfold chat_session; run; now rewrite Ha].
    assert (HK : forall st1, agent st1 = Some self ->
              fst (K st1) = Returned tt \/ fst (K st1) = Raised (Exception EOFError)).
    { intros st1 H1. unfold K. run. rewrite H1. run.
      apply (chat_loop_outcome _ _ self). exact H1. }
    assert (E : @chat_session shipped_agent input_list st
                = bind (if negb (ZerePyAgent.is_llm_set self)
                        then call M_setup_llm_provider "_setup_llm_provider" []
                               (@_setup_llm_provider shipped_agent)
                        else ret tt) (fun _ => K) st).
    { unfold chat_session. unfold bind at 1. unfold get at 1. cbv beta iota.
      rewrite Ha. reflexivity. }
    rewrite E.
    assert (G : forall r : outcome unit,
              r = Returned tt \/ r = Raised (Exception EOFError) ->
              r = Returned tt
              \/ (Some self <> None /\ r = Raised (Exception EOFError))).
    { intros r [H|H]; [now left | right; split; [discriminate | exact H]]. }
    apply G. destruct (ZerePyAgent.is_llm_set self); cbn [negb].
    + apply (HK st Ha).
    + unfold bind, call. rewrite Ha.
      cbn [_setup_llm_provider shipped_agent returns m_ret m_out m_self].
      cbv beta iota zeta. apply HK. reflexivity.
  - unfold ZerePyCLI.list_actions. run. destruct (agent st) eqn:Ha; [|reflexivity].
    destruct (length input_list <? 2); [reflexivity|]. rewrite Ha. reflexivity.
  - unfold ZerePyCLI.configure_connection. run. destruct (agent st) eqn:Ha; [|reflexivity].
    destruct (length input_list <? 2); [reflexivity|]. rewrite Ha. reflexivity.
  - unfold ZerePyCLI.list_connections. run. destruct (agent st) eqn:Ha; [|reflexivity].
    rewrite Ha. reflexivity.
  - reflexivity.
Qed.
